(** * HybridSolver: the Newton-Raphson / bisection root finder of solver2.py

    A shallow embedding of [HybridSolver.solve] and the properties its
    specification states about it.

    The Python code is duck-typed over its numbers: it only adds, subtracts,
    multiplies, divides, takes absolute values and compares.  The embedding
    takes that arithmetic as an interface ([Number]) with two instances:
    - [float_Number], IEEE 754 binary64, which is what a Python [float] is
      and what app2.py passes in;
    - [Q_Number], exact rationals, the "real numbers" the specification
      talks about (no rounding, no overflow, no NaN).

    What depends on control flow only is proved for every [Number], binary64
    included.  Order and width properties hold over the exact instance only:
    each theorem that has such a part says so, and comes with a binary64 run
    (overflow of a midpoint, underflow of a product, rounding) on which that
    part fails.

    The file has two parts: the definitions (the embedding, the vocabulary
    of the statements, sample solvers), then the lemmas and theorems. *)

From Stdlib Require Import ZArith QArith Qabs Floats Bool List String Lia Lqa.
Import ListNotations.

(* ================================================================== *)
(** * Part I.  Definitions *)

(* ------------------------------------------------------------------ *)
(** ** The arithmetic the solver uses *)

Class Number (num : Type) : Type := {
  add : num -> num -> num;
  sub : num -> num -> num;
  mul : num -> num -> num;
  div : num -> num -> num;
  nabs : num -> num;               (* abs(x) *)
  ltb : num -> num -> bool;        (* x < y  *)
  geb : num -> num -> bool;        (* x >= y *)
  zero : num;                      (* the literal 0 *)
  two : num;                       (* the literal 2 *)
  eps12 : num                      (* the literal 1e-12 *)
}.

(** Python floats.  [1e-12] is the binary64 number nearest to 10^-12.
    Division is total here: the only division by a computed value,
    [f_val / df_val], is guarded by [abs(df_val) < 1e-12], which both zeros
    satisfy ([zero_divisor_is_caught]). *)
#[export] Instance float_Number : Number float := {|
  add := PrimFloat.add;
  sub := PrimFloat.sub;
  mul := PrimFloat.mul;
  div := PrimFloat.div;
  nabs := PrimFloat.abs;
  ltb := PrimFloat.ltb;
  geb := fun x y => PrimFloat.leb y x;
  zero := 0%float;
  two := 2%float;
  eps12 := 0x1.19799812dea11p-40%float
|}.

Definition Qltb (x y : Q) : bool :=
  match (x ?= y)%Q with Lt => true | _ => false end.

(** Exact arithmetic.  The threshold is the value of the binary64 literal
    [1e-12], which is 4951760157141521 / 2^92, a little below 10^-12. *)
#[export] Instance Q_Number : Number Q := {|
  add := Qplus;
  sub := Qminus;
  mul := Qmult;
  div := Qdiv;
  nabs := Qabs;
  ltb := Qltb;
  geb := fun x y => Qle_bool y x;
  zero := 0%Q;
  two := 2%Q;
  eps12 := (4951760157141521 # 4951760157141521099596496896)%Q
|}.

(* ------------------------------------------------------------------ *)
(** ** Exceptions, the store and the monad of a method call *)

(** A Python exception (a subclass of [Exception]): its class and its
    message. *)
Inductive exn : Type :=
| Exn (class msg : string).

Inductive res (A : Type) : Type :=
| Ok (v : A)
| Raise (e : exn).

Arguments Ok {A} v.
Arguments Raise {A} e.

Section Solver.

Context {num : Type} `{Number num}.

(** One dictionary appended to [self.history].  [float(...)] leaves a number
    as it is. *)
Record row : Type := {
  Iteration : Z;
  Method : string;
  Current_Root_Estimate : num;
  Function_Value : num;
  Error_Estimate : num;
  Decision_Logic : string
}.

(** An evaluation of one of the two lambdified callables. *)
Inductive eval : Type :=
| Eval_f (x : num)
| Eval_df (x : num).

(** What a call can change: the attribute [self.history], and the calls made
    to [self.f] and [self.df] so far (the latter is an observation of the
    run, not a Python variable). *)
Record store : Type := {
  self_history : list row;
  evals : list eval
}.

Definition M (A : Type) : Type := store -> res A * store.

Definition ret {A} (v : A) : M A := fun st => (Ok v, st).

Definition raise {A} (e : exn) : M A := fun st => (Raise e, st).

Definition bind {A B} (m : M A) (k : A -> M B) : M B :=
  fun st =>
    match m st with
    | (Ok v, st') => k v st'
    | (Raise e, st') => (Raise e, st')
    end.

(** [try: m  except Exception: h] *)
Definition try_except {A} (m : M A) (h : exn -> M A) : M A :=
  fun st =>
    match m st with
    | (Ok v, st') => (Ok v, st')
    | (Raise e, st') => h e st'
    end.

(** [self.history = h] *)
Definition set_history (h : list row) : M unit :=
  fun st => (Ok tt, {| self_history := h; evals := evals st |}).

Definition get_history : M (list row) :=
  fun st => (Ok (self_history st), st).

(** [self.history.append(r)] *)
Definition append_history (r : row) : M unit :=
  fun st => (Ok tt, {| self_history := self_history st ++ [r]; evals := evals st |}).

Definition log_eval (e : eval) : M unit :=
  fun st => (Ok tt, {| self_history := self_history st; evals := evals st ++ [e] |}).

Definition lift {A} (r : res A) : M A := fun st => (r, st).

End Solver.

Arguments row : clear implicits.
Arguments eval : clear implicits.
Arguments store : clear implicits.
Arguments M : clear implicits.

Declare Scope py_scope.
Delimit Scope py_scope with py.

Notation "x <- m ;; k" := (bind m (fun x => k))
  (at level 100, m at next level, right associativity) : py_scope.
Notation "' p <- m ;; k" := (bind m (fun x => match x with p => k end))
  (at level 100, p pattern, m at next level, right associativity) : py_scope.
Notation "m ;;; k" := (bind m (fun _ => k))
  (at level 100, right associativity) : py_scope.

Open Scope py_scope.
Open Scope string_scope.
Open Scope list_scope.
Open Scope Z_scope.

(* ------------------------------------------------------------------ *)
(** ** The solver object and [solve] *)

Section HybridSolver.

Context {num : Type} `{Number num}.

(** The attributes [__init__] sets that [solve] reads.  [self.f] and
    [self.df] are the lambdified expression and derivative; they may raise
    (a pole, a domain error).  [self.history] lives in the store. *)
Record HybridSolver : Type := {
  self_valid : bool;
  self_error_msg : string;
  self_f : num -> res num;
  self_df : num -> res num
}.

(** [__init__(func_str)].  SymPy is outside the repository: [sympify_diff]
    stands for [sp.sympify], [sp.diff] and the two [sp.lambdify] calls and
    either raises or yields the two callables.  When it raises, [self.f] and
    [self.df] are never assigned, so reading them is an [AttributeError]. *)
Definition init (sympify_diff : string -> exn + (num -> res num) * (num -> res num))
    (func_str : string) : HybridSolver * store num :=
  let no_attr := fun _ : num =>
    Raise (Exn "AttributeError" "'HybridSolver' object has no attribute") in
  (match sympify_diff func_str with
   | inr (fn, dfn) =>
       {| self_valid := true; self_error_msg := "";
          self_f := fn; self_df := dfn |}
   | inl (Exn _ e) =>
       {| self_valid := false;
          self_error_msg := ("Invalid Function Syntax: " ++ e)%string;
          self_f := no_attr; self_df := no_attr |}
   end,
   {| self_history := []; evals := [] |}).

Variable self : HybridSolver.

(** [self.f(x)] and [self.df(x)] *)
Definition call_f (x : num) : M num num :=
  log_eval (Eval_f x) ;;; lift (self_f self x).

Definition call_df (x : num) : M num num :=
  log_eval (Eval_df x) ;;; lift (self_df self x).

(** The local variables of [solve] that live across iterations.  [loc_i] is
    the loop variable [i]: the number of the last iteration begun, 0 before
    the first one (where Python leaves [i] unbound). *)
Record locals : Type := {
  loc_a : num;
  loc_b : num;
  current_x : num;
  loc_i : Z
}.

(** [(a + b) / 2] *)
Definition midpoint (a b : num) : num := div (add a b) two.

(** Lines 52-78: the Newton attempt inside [try], and its [except] branch.
    Yields the new [current_x], [method_used] and [decision_note]. *)
Definition newton_step (a b current_x : num) : M num (num * string * string) :=
  try_except
    (f_val <- call_f current_x ;;
     df_val <- call_df current_x ;;
     if ltb (nabs df_val) eps12
     then raise (Exn "ValueError" "Zero Derivative")
     else
       let x_newton := sub current_x (div f_val df_val) in
       if ltb a x_newton && ltb x_newton b
       then ret (x_newton, "Newton-Raphson", "Accepted (Step is Safe)")
       else ret (midpoint a b, "Bisection", "Switched (Newton Overshot Bounds)"))
    (fun _ =>
       ret (midpoint a b, "Bisection", "Switched (Newton Singularity)")).

(** Lines 83-86: the new [(a, b)], from [f(a)] and [f_new]. *)
Definition update_bracket (a b current_x f_a f_new : num) : num * num :=
  if ltb (mul f_a f_new) zero then (a, current_x) else (current_x, b).

(** One pass through the body of the [for] loop (lines 49-103).  The boolean
    is [true] when the pass ends in [break]. *)
Definition iteration (tol : num) (i : Z) (l : locals) : M num (locals * bool) :=
  ' (x, method_used, decision_note) <- newton_step (loc_a l) (loc_b l) (current_x l) ;;
  f_new <- call_f x ;;
  f_a <- call_f (loc_a l) ;;
  let (a', b') := update_bracket (loc_a l) (loc_b l) x f_a f_new in
  let error := nabs (sub b' a') in
  append_history
    {| Iteration := i;
       Method := method_used;
       Current_Root_Estimate := x;
       Function_Value := f_new;
       Error_Estimate := error;
       Decision_Logic := decision_note |} ;;;
  ret ({| loc_a := a'; loc_b := b'; current_x := x; loc_i := i |},
       ltb error tol || ltb (nabs f_new) eps12).

(** [for i in range(i, i + n): ...] with its [break]. *)
Fixpoint for_loop (tol : num) (n : nat) (i : Z) (l : locals) : M num locals :=
  match n with
  | O => ret l
  | S n' =>
      ' (l', stop) <- iteration tol i l ;;
      if stop then ret l' else for_loop tol n' (i + 1) l'
  end.

(** The second component of what [solve] returns: a [DataFrame] of rows, or
    the error string. *)
Inductive report : Type :=
| DataFrame (rows : list (row num))
| Message (s : string).

Definition bracket_error : string :=
  "Error: The chosen interval [a, b] does not bracket a root. f(a) and f(b) must have opposite signs.".

(** The locals at loop entry: [current_x = (a + b) / 2] (line 45). *)
Definition entry (a b : num) : locals :=
  {| loc_a := a; loc_b := b; current_x := midpoint a b; loc_i := 0 |}.

(** Lines 45-103: what [solve] does once the bracket is accepted.
    [range(1, max_iter + 1)] has [max_iter] elements, none when
    [max_iter <= 0]. *)
Definition solve_loop (a b tol : num) (max_iter : Z) : M num locals :=
  let l := entry a b in
  set_history [] ;;;
  for_loop tol (Z.to_nat max_iter) 1 l.

(** [solve(a, b, tol, max_iter)] *)
Definition solve (a b tol : num) (max_iter : Z) : M num (option num * report) :=
  if negb (self_valid self) then ret (None, DataFrame [])
  else
    fa <- call_f a ;;
    fb <- call_f b ;;
    if geb (mul fa fb) zero then ret (None, Message bracket_error)
    else
      l <- solve_loop a b tol max_iter ;;
      h <- get_history ;;
      ret (Some (current_x l), DataFrame h).

End HybridSolver.

Arguments HybridSolver num : clear implicits.
Arguments locals num : clear implicits.
Arguments report num : clear implicits.

(* ------------------------------------------------------------------ *)
(** ** The vocabulary of the statements *)

Section Vocabulary.

Context {num : Type} `{Number num}.

Variable S : HybridSolver num.

(** The store after the evaluations [ev]. *)
Definition logged (st : store num) (ev : list (eval num)) : store num :=
  {| self_history := self_history st; evals := evals st ++ ev |}.

Definition with_history (h : list (row num)) (st : store num) : store num :=
  {| self_history := h; evals := evals st |}.

(** What the Newton attempt can decide, and from what. *)
Inductive newton_outcome (a b x : num) : num * string * string -> list (eval num) -> Prop :=
| Newton_accepted f_val df_val :
    self_f S x = Ok f_val ->
    self_df S x = Ok df_val ->
    ltb (nabs df_val) eps12 = false ->
    ltb a (sub x (div f_val df_val)) && ltb (sub x (div f_val df_val)) b = true ->
    newton_outcome a b x
      (sub x (div f_val df_val), "Newton-Raphson", "Accepted (Step is Safe)")
      [Eval_f x; Eval_df x]
| Switched_overshoot f_val df_val :
    self_f S x = Ok f_val ->
    self_df S x = Ok df_val ->
    ltb (nabs df_val) eps12 = false ->
    ltb a (sub x (div f_val df_val)) && ltb (sub x (div f_val df_val)) b = false ->
    newton_outcome a b x
      (midpoint a b, "Bisection", "Switched (Newton Overshot Bounds)")
      [Eval_f x; Eval_df x]
| Switched_zero_derivative f_val df_val :
    self_f S x = Ok f_val ->
    self_df S x = Ok df_val ->
    ltb (nabs df_val) eps12 = true ->
    newton_outcome a b x
      (midpoint a b, "Bisection", "Switched (Newton Singularity)")
      [Eval_f x; Eval_df x]
| Switched_df_raised f_val e :
    self_f S x = Ok f_val ->
    self_df S x = Raise e ->
    newton_outcome a b x
      (midpoint a b, "Bisection", "Switched (Newton Singularity)")
      [Eval_f x; Eval_df x]
| Switched_f_raised e :
    self_f S x = Raise e ->
    newton_outcome a b x
      (midpoint a b, "Bisection", "Switched (Newton Singularity)")
      [Eval_f x].

(** The Newton attempt is unavailable at [x]: an evaluation raises, or the
    derivative is below the threshold. *)
Definition newton_unavailable (x : num) : Prop :=
  (exists e, self_f S x = Raise e) \/
  (exists e, self_df S x = Raise e) \/
  (exists df_val, self_df S x = Ok df_val /\ ltb (nabs df_val) eps12 = true).

(** The row, the locals and the [break] test a pass produces from the Newton
    choice [x] and the two values read by the bracket update. *)
Definition row_of (tol : num) (i : Z) (l : locals num)
    (x : num) (meth note : string) (f_a f_new : num) : row num :=
  let (a', b') := update_bracket (loc_a l) (loc_b l) x f_a f_new in
  {| Iteration := i; Method := meth; Current_Root_Estimate := x;
     Function_Value := f_new; Error_Estimate := nabs (sub b' a');
     Decision_Logic := note |}.

Definition locals_of (i : Z) (l : locals num) (x f_a f_new : num) : locals num :=
  let (a', b') := update_bracket (loc_a l) (loc_b l) x f_a f_new in
  {| loc_a := a'; loc_b := b'; current_x := x; loc_i := i |}.

Definition stop_of (tol : num) (l : locals num) (x f_a f_new : num) : bool :=
  let (a', b') := update_bracket (loc_a l) (loc_b l) x f_a f_new in
  ltb (nabs (sub b' a')) tol || ltb (nabs f_new) eps12.

(** The call gets past the validation of lines 35-43. *)
Definition bracket_accepted (a b : num) : Prop :=
  self_valid S = true /\
  exists fa fb,
    self_f S a = Ok fa /\ self_f S b = Ok fb /\ geb (mul fa fb) zero = false.

(** The states in which the passes of a loop begin: [reaches tol i0 l0 st0
    i l st] says that the loop entered with index [i0], locals [l0] and
    store [st0] begins pass [i] with locals [l] and store [st], every pass
    before it having completed without [break]. *)
Inductive reaches (tol : num) (i0 : Z) (l0 : locals num) (st0 : store num)
  : Z -> locals num -> store num -> Prop :=
| reaches_first : reaches tol i0 l0 st0 i0 l0 st0
| reaches_next i l st l' st' :
    reaches tol i0 l0 st0 i l st ->
    iteration S tol i l st = (Ok (l', false), st') ->
    reaches tol i0 l0 st0 (i + 1) l' st'.

(** The rows a loop entered at index [i0] with history [h0] has appended
    when it stands before pass [j]: one per pass, numbered from [i0] on, the
    loop variable being the number of the last one. *)
Definition numbered (i0 : Z) (h0 : list (row num)) (j : Z) (l : locals num) (st : store num) : Prop :=
  i0 <= j /\
  loc_i l = j - 1 /\
  exists rows,
    self_history st = h0 ++ rows /\
    map (@Iteration num) rows = map (fun k => i0 + Z.of_nat k) (seq 0 (Z.to_nat (j - i0))).

(** The bracketing invariant, with the test the code itself uses:
    [f(a) * f(b) < 0]. *)
Definition bracketed (l : locals num) : Prop :=
  exists f_a f_b,
    self_f S (loc_a l) = Ok f_a /\
    self_f S (loc_b l) = Ok f_b /\
    ltb (mul f_a f_b) zero = true.

(** The invariant holds before and after the bracket update of every pass
    of the loop that [solve S a b tol max_iter] runs from the store [st]. *)
Definition bracket_invariant_throughout (a b tol : num) (max_iter : Z) (st : store num) : Prop :=
  forall j l stj,
    reaches tol 1 (entry a b) (with_history [] (logged st [Eval_f a; Eval_f b])) j l stj ->
    j <= max_iter ->
    bracketed l /\
    forall l' stop st',
      iteration S tol j l stj = (Ok (l', stop), st') -> bracketed l'.

(** The pass took a bisection step: the row it appended says so. *)
Definition bisection_pass (tol : num) (i : Z) (l : locals num) (st : store num)
    (l' : locals num) (st' : store num) : Prop :=
  exists stop r,
    iteration S tol i l st = (Ok (l', stop), st') /\
    self_history st' = self_history st ++ [r] /\
    Method r = "Bisection".

End Vocabulary.

Section ExactVocabulary.

Local Open Scope Q_scope.

Variable S : HybridSolver Q.

(** [f] evaluates to zero at [x]. *)
Definition exact_root (x : Q) : Prop :=
  exists v, self_f S x = Ok v /\ v == 0.

(** The recorded errors never increase from one row to the next. *)
Definition descending (h : list (row Q)) : Prop :=
  forall k r1 r2,
    nth_error h k = Some r1 ->
    nth_error h (Datatypes.S k) = Some r2 ->
    Error_Estimate r2 <= Error_Estimate r1.

(** ... and none of them is below the present width of the bracket. *)
Definition above_width (l : locals Q) (st : store Q) : Prop :=
  descending (self_history st) /\
  forall r, In r (self_history st) -> Qabs (loc_b l - loc_a l) <= Error_Estimate r.

(** The bracket is ordered and the estimate is inside it. *)
Definition inside (l : locals Q) : Prop :=
  loc_a l < loc_b l /\ loc_a l <= current_x l /\ current_x l <= loc_b l.

End ExactVocabulary.

(** Linear arithmetic over [Q] with the halvings [_ / 2] of the midpoint. *)
Ltac halves :=
  unfold Qdiv in *; change (/ 2)%Q with (1 # 2)%Q in *; lra.

(* ------------------------------------------------------------------ *)
(** ** Rows, evaluations and the stopping test *)

Section Rows.

Context {num : Type} `{Number num}.

(** The method and the decision of a row agree: Newton goes with
    "Accepted", Bisection with one of the two "Switched". *)
Definition row_consistent (r : row num) : Prop :=
  (Method r = "Newton-Raphson" /\ Decision_Logic r = "Accepted (Step is Safe)") \/
  (Method r = "Bisection" /\
   (Decision_Logic r = "Switched (Newton Overshot Bounds)" \/
    Decision_Logic r = "Switched (Newton Singularity)")).

(** The test of line 102, [error < tol or abs(f_new) < 1e-12], on the values
    a row records. *)
Definition row_converged (tol : num) (r : row num) : bool :=
  ltb (Error_Estimate r) tol || ltb (nabs (Function_Value r)) eps12.

(** The evaluations made since a store that had logged [e0] of them, against
    the rows written since the history was emptied: three or four for each
    row. *)
Definition counted (e0 : nat) (st : store num) : Prop :=
  (e0 + 3 * List.length (self_history st) <= List.length (evals st) /\
   List.length (evals st) <= e0 + 4 * List.length (self_history st))%nat.

End Rows.

(* ------------------------------------------------------------------ *)
(** ** The "Find Root" button of app2.py *)

Section App.

Context {num : Type} `{Number num}.

(** What lines 31-44 of the click show: [st.error(msg)], or [st.success]
    with the root (Streamlit prints it with eight decimals); in the second
    case the handler goes on to the tabs of lines 46-98 with that root and
    that history. *)
Inductive page : Type :=
| Error_box (msg : string)
| Success_box (root : num) (history : list (row num)).

(** Lines 31-44, and no further.  A solver is built from the text, then
    [solve] is called with the default [max_iter = 100].  A string in the
    second component is the bracket error; formatting a root that is [None]
    would raise.  The tabs of lines 46-98 (Matplotlib plot, styled table)
    are not part of this function: [Success_box] is the point where they
    begin, and what they may raise is not modelled.
    app2.py imports [HybridSolver] from a module named [solver]; the class
    is taken to be the one of solver2.py, the only one in the repository. *)
Definition find_root_clicked
    (sympify_diff : string -> exn + (num -> res num) * (num -> res num))
    (func_input : string) (a_val b_val tol : num) : res page * store num :=
  let (solver, st0) := init sympify_diff func_input in
  if negb (self_valid solver) then (Ok (Error_box (self_error_msg solver)), st0)
  else
    match solve solver a_val b_val tol 100 st0 with
    | (Ok (_, Message s), st) => (Ok (Error_box s), st)
    | (Ok (Some root, DataFrame history), st) => (Ok (Success_box root history), st)
    | (Ok (None, DataFrame _), st) =>
        (Raise (Exn "TypeError" "unsupported format string passed to NoneType.__format__"), st)
    | (Raise e, st) => (Raise e, st)
    end.

(** Lines 67-68: the rows plotted as green dots and as red crosses. *)
Definition newton_steps (history : list (row num)) : list (row num) :=
  filter (fun r => String.eqb (Method r) "Newton-Raphson") history.

Definition bisection_steps (history : list (row num)) : list (row num) :=
  filter (fun r => String.eqb (Method r) "Bisection") history.

(** Line 98: a cell of the "Decision Logic" column is printed in red when
    ['Switched' in str(v)]. *)
Definition printed_red (v : string) : bool :=
  match index 0 "Switched" v with
  | Some _ => true
  | None => false
  end.

End App.

Arguments page num : clear implicits.

(* ------------------------------------------------------------------ *)
(** ** Sample solvers *)

Module Samples.

Open Scope float_scope.

Definition fresh : store float := {| self_history := []; evals := [] |}.

(** 1e-6, the default tolerance *)
Definition tol6 : float := 0x1.0c6f7a0b5ed8dp-20.

(** 0.1, 0.2 and 0.3 as binary64 reads them *)
Definition tenth : float := 0x1.999999999999ap-4.
Definition fifth : float := 0x1.999999999999ap-3.
Definition three_tenths : float := 0x1.3333333333333p-2.

Definition total (fn : float -> float) : float -> res float := fun x => Ok (fn x).

(** [x**2 - 2] *)
Definition sqrt2 : HybridSolver float :=
  {| self_valid := true; self_error_msg := "";
     self_f := total (fun x => x * x - 2);
     self_df := total (fun x => 2 * x) |}.

(** [x**2 + 1] *)
Definition no_root : HybridSolver float :=
  {| self_valid := true; self_error_msg := "";
     self_f := total (fun x => x * x + 1);
     self_df := total (fun x => 2 * x) |}.

(** [x] *)
Definition identity : HybridSolver float :=
  {| self_valid := true; self_error_msg := "";
     self_f := total (fun x => x);
     self_df := total (fun _ => 1) |}.

(** [x**3 - 2*x + 2], the default of app2.py *)
Definition cubic : HybridSolver float :=
  {| self_valid := true; self_error_msg := "";
     self_f := total (fun x => x * x * x - 2 * x + 2);
     self_df := total (fun x => 3 * (x * x) - 2) |}.

(** Division of Python floats raises on a zero divisor. *)
Definition pydiv (x y : float) : res float :=
  if (y =? 0) then Raise (Exn "ZeroDivisionError" "float division by zero")
  else Ok (x / y).

(** [1/x] *)
Definition reciprocal : HybridSolver float :=
  {| self_valid := true; self_error_msg := "";
     self_f := fun x => pydiv 1 x;
     self_df := fun x => pydiv (-1) (x * x) |}.

(** [(x - 0.2)**3 + 1e-9]: the derivative vanishes at 0.2 *)
Definition flat_cubic : HybridSolver float :=
  {| self_valid := true; self_error_msg := "";
     self_f := total (fun x =>
       let d := x - fifth in d * d * d + 0x1.12e0be826d695p-30);
     self_df := total (fun x =>
       let d := x - fifth in 3 * (d * d)) |}.

(** -1e-320, a subnormal, and the large -1e308, 1.7e308 *)
Definition minus_tiny : float := (-0x7e8p-1074).
Definition minus_1e308 : float := (-0x1.1ccf385ebc8a0p+1023).
Definition plus_17e307 : float := 0x1.e42d130773b76p+1023.

(** [x*(x + 3)], with the roots 0 and -3 *)
Definition two_roots : HybridSolver float :=
  {| self_valid := true; self_error_msg := "";
     self_f := total (fun x => x * (x + 3));
     self_df := total (fun x => 2 * x + 3) |}.

(** [1e-300*x - 1e8], with the root 1e308 *)
Definition shallow_line : HybridSolver float :=
  {| self_valid := true; self_error_msg := "";
     self_f := total (fun x => 0x1.56e1fc2f8f359p-997 * x - 100000000);
     self_df := total (fun _ => 0x1.56e1fc2f8f359p-997) |}.

(** [(1e-300*x - 1e8)*(2e8 - 1e-300*x)], with the roots 1e308 and 2e308,
    the second beyond the largest binary64 number *)
Definition far_roots : HybridSolver float :=
  {| self_valid := true; self_error_msg := "";
     self_f := total (fun x =>
       (0x1.56e1fc2f8f359p-997 * x - 100000000) * (200000000 - 0x1.56e1fc2f8f359p-997 * x));
     self_df := total (fun x =>
       0x1.56e1fc2f8f359p-997 * (300000000 - 0x1.56e1fc2f8f359p-996 * x)) |}.

(** A string SymPy rejects. *)
Definition unparsed : HybridSolver float * store float :=
  init (fun _ => inl (Exn "SympifyError" "could not parse 'x +* 2'")) "x +* 2".

Close Scope float_scope.
Open Scope Q_scope.

Definition fresh_exact : store Q := {| self_history := []; evals := [] |}.

Definition total_exact (fn : Q -> Q) : Q -> res Q := fun x => Ok (fn x).

(** [x**2 - 2] over the rationals *)
Definition sqrt2_exact : HybridSolver Q :=
  {| self_valid := true; self_error_msg := "";
     self_f := total_exact (fun x => x * x - 2);
     self_df := total_exact (fun x => 2 * x) |}.

(** [x**3 - 2*x + 2] over the rationals *)
Definition cubic_exact : HybridSolver Q :=
  {| self_valid := true; self_error_msg := "";
     self_f := total_exact (fun x => x * x * x - 2 * x + 2);
     self_df := total_exact (fun x => 3 * (x * x) - 2) |}.

(** [x] over the rationals *)
Definition identity_exact : HybridSolver Q :=
  {| self_valid := true; self_error_msg := "";
     self_f := total_exact (fun x => x);
     self_df := total_exact (fun _ => 1) |}.

Close Scope Q_scope.

(** A stand-in for SymPy that knows three texts. *)
Definition three_texts (s : string)
  : exn + (float -> res float) * (float -> res float) :=
  if String.eqb s "x**3 - 2*x + 2" then inr (self_f cubic, self_df cubic)
  else if String.eqb s "x**2 + 1" then inr (self_f no_root, self_df no_root)
  else if String.eqb s "1/x" then inr (self_f reciprocal, self_df reciprocal)
  else inl (Exn "SympifyError" "could not parse the expression").

(** The two components of what a call returned. *)
Definition returned_root {num : Type} (r : res (option num * report num)) : option num :=
  match r with
  | Ok (root, _) => root
  | Raise _ => None
  end.

Definition returned_rows {num : Type} (r : res (option num * report num)) : list (row num) :=
  match r with
  | Ok (_, DataFrame rows) => rows
  | _ => []
  end.

(** Some runs and clicks, and the parts of what they produced. *)
Definition cubic_run : res (option float * report float) * store float :=
  solve cubic (-2)%float 1%float tol6 100 fresh.

Definition cubic_click : res (page float) * store float :=
  find_root_clicked three_texts "x**3 - 2*x + 2" (-2)%float 1%float tol6.

Definition shown_root (c : res (page float)) : float :=
  match c with
  | Ok (Success_box root _) => root
  | _ => 0%float
  end.

Definition shown_rows (c : res (page float)) : list (row float) :=
  match c with
  | Ok (Success_box _ history) => history
  | _ => []
  end.

Definition no_row : row float :=
  {| Iteration := 0; Method := ""; Current_Root_Estimate := 0%float;
     Function_Value := 0%float; Error_Estimate := 0%float; Decision_Logic := "" |}.

End Samples.

(* ================================================================== *)
(** * Part II.  Lemmas and theorems *)

(* ------------------------------------------------------------------ *)
(** ** Running one pass *)

Section Run.

Context {num : Type} `{Number num}.

Variable S : HybridSolver num.

Lemma logged_nil (st : store num) : logged st [] = st.
Proof. destruct st; unfold logged; simpl; now rewrite app_nil_r. Qed.

Lemma logged_logged (st : store num) e1 e2 :
  logged (logged st e1) e2 = logged st (e1 ++ e2).
Proof. unfold logged; simpl; now rewrite app_assoc. Qed.

Lemma call_f_run x st :
  call_f S x st = (self_f S x, logged st [Eval_f x]).
Proof. unfold call_f, bind, log_eval, lift, logged; simpl; now destruct (self_f S x). Qed.

Lemma call_df_run x st :
  call_df S x st = (self_df S x, logged st [Eval_df x]).
Proof. unfold call_df, bind, log_eval, lift, logged; simpl; now destruct (self_df S x). Qed.

(** The Newton attempt never raises: whatever happens inside [try] ends in
    one of the five cases of [newton_outcome]. *)
Lemma newton_step_run a b x st :
  exists r ev,
    newton_step S a b x st = (Ok r, logged st ev) /\ newton_outcome S a b x r ev.
Proof.
  unfold newton_step, try_except, bind.
  rewrite call_f_run.
  destruct (self_f S x) as [f_val|e] eqn:Ef.
  2:{ eexists _, _; split; [reflexivity|]. now apply Switched_f_raised with e. }
  rewrite call_df_run.
  destruct (self_df S x) as [df_val|e] eqn:Ed.
  2:{ rewrite logged_logged. eexists _, _; split; [reflexivity|].
      now apply Switched_df_raised with f_val e. }
  rewrite logged_logged; simpl app.
  destruct (ltb (nabs df_val) eps12) eqn:Ez.
  { eexists _, _; split; [reflexivity|]. now apply Switched_zero_derivative with f_val df_val. }
  destruct (ltb a (sub x (div f_val df_val)) && ltb (sub x (div f_val df_val)) b) eqn:Ei.
  - eexists _, _; split; [reflexivity|]. now apply Newton_accepted.
  - eexists _, _; split; [reflexivity|]. now apply Switched_overshoot with f_val df_val.
Qed.

(** A whole pass, once the Newton attempt has chosen [x]: the bracket update
    evaluates [f(x)] and then [f(a)], and either of them may raise. *)
Lemma iteration_run tol i l st x meth note st1 :
  newton_step S (loc_a l) (loc_b l) (current_x l) st = (Ok (x, meth, note), st1) ->
  iteration S tol i l st =
  match self_f S x with
  | Raise e => (Raise e, logged st1 [Eval_f x])
  | Ok f_new =>
      match self_f S (loc_a l) with
      | Raise e => (Raise e, logged st1 [Eval_f x; Eval_f (loc_a l)])
      | Ok f_a =>
          (Ok (locals_of i l x f_a f_new, stop_of tol l x f_a f_new),
           {| self_history := self_history st1 ++ [row_of tol i l x meth note f_a f_new];
              evals := evals st1 ++ [Eval_f x; Eval_f (loc_a l)] |})
      end
  end.
Proof.
  intros Hn. unfold iteration, bind at 1. rewrite Hn.
  unfold bind at 1. rewrite call_f_run.
  destruct (self_f S x) as [f_new|e]; [|reflexivity].
  unfold bind at 1. rewrite call_f_run, logged_logged. simpl app.
  destruct (self_f S (loc_a l)) as [f_a|e]; [|reflexivity].
  unfold locals_of, stop_of, row_of.
  destruct (update_bracket (loc_a l) (loc_b l) x f_a f_new) as [a' b'].
  reflexivity.
Qed.

(** A pass that completes: what it read and what it wrote. *)
Lemma iteration_ok tol i l st l' stop st' :
  iteration S tol i l st = (Ok (l', stop), st') ->
  exists x meth note ev f_new f_a,
    newton_outcome S (loc_a l) (loc_b l) (current_x l) (x, meth, note) ev /\
    self_f S x = Ok f_new /\
    self_f S (loc_a l) = Ok f_a /\
    l' = locals_of i l x f_a f_new /\
    stop = stop_of tol l x f_a f_new /\
    self_history st' = self_history st ++ [row_of tol i l x meth note f_a f_new] /\
    evals st' = evals st ++ ev ++ [Eval_f x; Eval_f (loc_a l)].
Proof.
  destruct (newton_step_run (loc_a l) (loc_b l) (current_x l) st)
    as ([[x meth] note] & ev & Hrun & Hn).
  rewrite (iteration_run tol i l st _ _ _ _ Hrun).
  destruct (self_f S x) as [f_new|e] eqn:Ex; [|discriminate].
  destruct (self_f S (loc_a l)) as [f_a|e] eqn:Ea; [|discriminate].
  intros [= <- <- <-]. simpl.
  exists x, meth, note, ev, f_new, f_a.
  repeat split; try assumption.
  now rewrite <- app_assoc.
Qed.

End Run.

(* ------------------------------------------------------------------ *)
(** ** The loop as a whole *)

Section Loop.

Context {num : Type} `{Number num}.

Variable S : HybridSolver num.

Lemma solve_loop_run a b tol max_iter st :
  solve_loop S a b tol max_iter st =
  for_loop S tol (Z.to_nat max_iter) 1 (entry a b) (with_history [] st).
Proof. reflexivity. Qed.

(** Past validation, [solve] is its loop: it returns the last [current_x]
    and the history the loop built, and raises what the loop raises. *)
Lemma solve_accepted a b tol max_iter st :
  bracket_accepted S a b ->
  solve S a b tol max_iter st =
  match solve_loop S a b tol max_iter (logged st [Eval_f a; Eval_f b]) with
  | (Ok l, st') => (Ok (Some (current_x l), DataFrame (self_history st')), st')
  | (Raise e, st') => (Raise e, st')
  end.
Proof.
  intros (Hv & fa & fb & Ha & Hb & Hg).
  unfold solve. rewrite Hv. change (negb true) with false. cbv iota.
  unfold bind at 1. rewrite call_f_run, Ha.
  unfold bind at 1. rewrite call_f_run, Hb, Hg, logged_logged; simpl app.
  unfold bind at 1.
  destruct (solve_loop S a b tol max_iter _) as [[l|e] st']; reflexivity.
Qed.

Lemma reaches_after_pass tol i0 l0 st0 l1 st1 i l st :
  iteration S tol i0 l0 st0 = (Ok (l1, false), st1) ->
  reaches S tol (i0 + 1) l1 st1 i l st ->
  reaches S tol i0 l0 st0 i l st.
Proof.
  intros Hstep Hr. induction Hr.
  - eapply reaches_next; [apply reaches_first | exact Hstep].
  - eapply reaches_next; eassumption.
Qed.

(** [for_loop] runs exactly the passes [reaches] describes: when it returns,
    either no pass was run, or the result is what the last pass left, and
    that pass ended in [break] or was the last of the range. *)
Lemma for_loop_reaches tol n i l st lf stf :
  for_loop S tol n i l st = (Ok lf, stf) ->
  (n = O /\ lf = l /\ stf = st) \/
  exists j lj stj stop,
    reaches S tol i l st j lj stj /\
    i <= j < i + Z.of_nat n /\
    iteration S tol j lj stj = (Ok (lf, stop), stf) /\
    (stop = true \/ j = i + Z.of_nat n - 1).
Proof.
  revert i l st. induction n as [|n IH]; intros i l st; simpl.
  - unfold ret. intros [= <- <-]. now left.
  - unfold bind at 1.
    destruct (iteration S tol i l st) as [[[l1 stop]|e] st1] eqn:Hit; [|discriminate].
    destruct stop.
    + unfold ret. intros [= <- <-]. right.
      exists i, l, st, true.
      split; [apply reaches_first|]. split; [lia|]. split; [assumption|now left].
    + intros Hloop. right.
      destruct (IH _ _ _ Hloop)
        as [(-> & -> & ->)|(j & lj & stj & stop & Hr & Hj & Hlast & Hend)].
      * exists i, l, st, false.
        split; [apply reaches_first|]. split; [lia|]. split; [assumption|right; lia].
      * exists j, lj, stj, stop.
        split; [eapply reaches_after_pass; eassumption|].
        split; [lia|]. split; [assumption|]. destruct Hend; [now left|right; lia].
Qed.

(** The invariant rule of the loop. *)
Lemma for_loop_rule (P : Z -> locals num -> store num -> Prop) tol :
  (forall i l st l' stop st',
      P i l st -> iteration S tol i l st = (Ok (l', stop), st') -> P (i + 1) l' st') ->
  forall n i l st lf stf,
    P i l st ->
    for_loop S tol n i l st = (Ok lf, stf) ->
    exists j, i <= j <= i + Z.of_nat n /\ P j lf stf.
Proof.
  intros Hstep. induction n as [|n IH]; intros i l st lf stf HP; simpl.
  - unfold ret. intros [= <- <-]. exists i. split; [lia|assumption].
  - unfold bind at 1.
    destruct (iteration S tol i l st) as [[[l1 stop]|e] st1] eqn:Hit; [|discriminate].
    pose proof (Hstep _ _ _ _ _ _ HP Hit) as HP1.
    destruct stop.
    + unfold ret. intros [= <- <-]. exists (i + 1). split; [lia|assumption].
    + intros Hloop. destruct (IH _ _ _ _ _ HP1 Hloop) as (j & Hj & HPj).
      exists j. split; [lia|assumption].
Qed.

(** The loop returns whenever [f] evaluates everywhere; so does [solve]. *)
Lemma for_loop_returns tol :
  (forall x, exists v, self_f S x = Ok v) ->
  forall n i l st, exists lf stf, for_loop S tol n i l st = (Ok lf, stf).
Proof.
  intros Hf. induction n as [|n IH]; intros i l st; simpl.
  - eexists _, _. reflexivity.
  - unfold bind at 1.
    destruct (newton_step_run S (loc_a l) (loc_b l) (current_x l) st)
      as ([[x meth] note] & ev & Hrun & _).
    rewrite (iteration_run S tol i l st _ _ _ _ Hrun).
    destruct (Hf x) as [v ->]. destruct (Hf (loc_a l)) as [u ->].
    destruct (stop_of tol l x u v).
    + eexists _, _. reflexivity.
    + apply IH.
Qed.

Lemma solve_returns a b tol max_iter st :
  (forall x, exists v, self_f S x = Ok v) ->
  exists r st', solve S a b tol max_iter st = (Ok r, st').
Proof.
  intros Hf. unfold solve.
  destruct (self_valid S); cbn [negb]; [|eexists _, _; reflexivity].
  unfold bind at 1. rewrite call_f_run. destruct (Hf a) as [fa ->].
  unfold bind at 1. rewrite call_f_run. destruct (Hf b) as [fb ->].
  destruct (geb (mul fa fb) zero); [eexists _, _; reflexivity|].
  unfold bind at 1. rewrite solve_loop_run.
  destruct (for_loop_returns tol Hf (Z.to_nat max_iter) 1 (entry a b)
              (with_history [] (logged (logged st [Eval_f a]) [Eval_f b])))
    as (lf & stf & ->).
  eexists _, _. reflexivity.
Qed.

(** Whatever the arithmetic, after at least one pass the estimate is one of
    the two ends of the bracket. *)
Lemma root_is_endpoint a b tol max_iter st l st' :
  1 <= max_iter ->
  solve_loop S a b tol max_iter st = (Ok l, st') ->
  current_x l = loc_a l \/ current_x l = loc_b l.
Proof.
  intros Hm Hloop. rewrite solve_loop_run in Hloop.
  apply for_loop_reaches in Hloop
    as [(Hn & _)|(j & lj & stj & stop & _ & _ & Hit & _)]; [lia|].
  apply iteration_ok in Hit
    as (x & meth & note & ev & f_new & f_a & _ & _ & _ & -> & _).
  unfold locals_of, update_bracket.
  destruct (ltb (mul f_a f_new) zero); simpl; auto.
Qed.

Lemma newton_outcome_unavailable a b x r ev :
  newton_outcome S a b x r ev ->
  newton_unavailable S x ->
  r = (midpoint a b, "Bisection", "Switched (Newton Singularity)").
Proof.
  intros Hn Hu. destruct Hn as [fv dv Hf Hd Hz Hi|fv dv Hf Hd Hz Hi| | |]; try reflexivity.
  all: destruct Hu as [[e He]|[[e He]|(dv' & Hd' & Hz')]]; congruence.
Qed.

Lemma newton_outcome_overshoot a b x r ev f_val df_val :
  newton_outcome S a b x r ev ->
  self_f S x = Ok f_val ->
  self_df S x = Ok df_val ->
  ltb (nabs df_val) eps12 = false ->
  ltb a (sub x (div f_val df_val)) && ltb (sub x (div f_val df_val)) b = false ->
  r = (midpoint a b, "Bisection", "Switched (Newton Overshot Bounds)").
Proof.
  intros Hn Hf Hd Hz Hi.
  destruct Hn as [fv dv Hf' Hd' Hz' Hi'|fv dv Hf' Hd' Hz' Hi'|fv dv Hf' Hd' Hz'|fv e Hf' Hd'|e Hf'];
    try reflexivity; congruence.
Qed.

Lemma numbered_step tol i0 h0 i l st l' stop st' :
  numbered i0 h0 i l st ->
  iteration S tol i l st = (Ok (l', stop), st') ->
  numbered i0 h0 (i + 1) l' st'.
Proof.
  intros (Hi & _ & rows & Hh & Hm) Hit.
  apply iteration_ok in Hit
    as (x & meth & note & ev & f_new & f_a & _ & _ & _ & -> & _ & Hh' & _).
  split; [lia|]. split.
  - unfold locals_of.
    destruct (update_bracket _ _ _ _ _); simpl; lia.
  - exists (rows ++ [row_of tol i l x meth note f_a f_new]). split.
    + now rewrite Hh', Hh, app_assoc.
    + replace (Z.to_nat (i + 1 - i0)) with (Datatypes.S (Z.to_nat (i - i0))) by lia.
      rewrite seq_S, !map_app, Hm; simpl. f_equal.
      unfold row_of. destruct (update_bracket _ _ _ _ _); simpl.
      f_equal. lia.
Qed.

(** A bisection pass sets the estimate to the midpoint and keeps one of the
    two halves. *)
Lemma bisection_pass_midpoint tol i l st l' st' :
  bisection_pass S tol i l st l' st' ->
  current_x l' = midpoint (loc_a l) (loc_b l) /\
  ((loc_a l' = loc_a l /\ loc_b l' = midpoint (loc_a l) (loc_b l)) \/
   (loc_a l' = midpoint (loc_a l) (loc_b l) /\ loc_b l' = loc_b l)) /\
  exists r,
    self_history st' = self_history st ++ [r] /\
    Error_Estimate r = nabs (sub (loc_b l') (loc_a l')).
Proof.
  intros (stop & r & Hit & Hh & Hm).
  apply iteration_ok in Hit
    as (x & meth & note & ev & f_new & f_a & Hn & _ & _ & -> & _ & Hh' & _).
  rewrite Hh in Hh'. apply app_inj_tail in Hh' as [_ ->].
  assert (Hx : x = midpoint (loc_a l) (loc_b l)).
  { unfold row_of in Hm. destruct (update_bracket _ _ _ _ _); simpl in Hm. subst meth.
    inversion Hn; subst; reflexivity. }
  clear Hm Hn. subst x. unfold locals_of, row_of, update_bracket in *.
  destruct (ltb (mul f_a f_new) zero); simpl;
    (split; [reflexivity|]); (split; [auto|]); eexists; (split; [exact Hh|reflexivity]).
Qed.

(** The bracket update tests one side only.  A pass that completes has read
    [f] at the lower bound and at its estimate: when the product is below
    zero the estimate becomes the upper bound, and the invariant holds of
    the new bracket; otherwise the estimate becomes the lower bound, and
    nothing is checked of the new bracket. *)
Lemma update_checks_one_side tol i l st l' stop st' :
  iteration S tol i l st = (Ok (l', stop), st') ->
  exists f_a f_new,
    self_f S (loc_a l) = Ok f_a /\
    self_f S (current_x l') = Ok f_new /\
    ((ltb (mul f_a f_new) zero = true /\
      loc_a l' = loc_a l /\ loc_b l' = current_x l' /\ bracketed S l') \/
     (ltb (mul f_a f_new) zero = false /\
      loc_a l' = current_x l' /\ loc_b l' = loc_b l)).
Proof.
  intros Hit.
  apply iteration_ok in Hit
    as (x & meth & note & ev & f_new & f_a & _ & Hx & Ha & -> & _).
  exists f_a, f_new. unfold locals_of, update_bracket.
  destruct (ltb (mul f_a f_new) zero) eqn:E; cbn [loc_a loc_b current_x].
  - split; [exact Ha|]. split; [exact Hx|]. left.
    split; [reflexivity|]. split; [reflexivity|]. split; [reflexivity|].
    exists f_a, f_new. cbn [loc_a loc_b]. auto.
  - split; [exact Ha|]. split; [exact Hx|]. right. auto.
Qed.

(** The error a pass records is the width of the bracket its update leaves,
    as the arithmetic computes it; one end of that bracket is the estimate,
    the other is kept. *)
Lemma pass_records_the_width tol i l st l' stop st' :
  iteration S tol i l st = (Ok (l', stop), st') ->
  exists r,
    self_history st' = self_history st ++ [r] /\
    Error_Estimate r = nabs (sub (loc_b l') (loc_a l')) /\
    ((loc_a l' = loc_a l /\ loc_b l' = current_x l') \/
     (loc_a l' = current_x l' /\ loc_b l' = loc_b l)).
Proof.
  intros Hit.
  apply iteration_ok in Hit
    as (x & meth & note & ev & f_new & f_a & _ & _ & _ & -> & _ & Hh & _).
  exists (row_of tol i l x meth note f_a f_new). split; [exact Hh|].
  unfold locals_of, row_of, update_bracket.
  destruct (ltb (mul f_a f_new) zero); cbn [loc_a loc_b current_x Error_Estimate]; auto.
Qed.

End Loop.

(** Both binary64 zeros are below the derivative threshold, so the Newton
    quotient never has a zero divisor. *)
Lemma zero_divisor_is_caught :
  ltb (nabs 0%float) eps12 = true /\ ltb (nabs (-0)%float) eps12 = true.
Proof. split; vm_compute; reflexivity. Qed.

(* ------------------------------------------------------------------ *)
(** ** Control flow: what holds whatever the arithmetic *)

Section Control.

Context {num : Type} `{Number num}.

Variable S : HybridSolver num.

(** C10.  On a solver whose function did not parse ([valid] is false),
    [solve] returns [None] with an empty table and leaves the store as it
    found it: it has evaluated neither [f] nor [f'], and it does not raise. *)
Theorem solve_invalid_returns_none a b tol max_iter st :
  self_valid S = false ->
  solve S a b tol max_iter st = (Ok (None, DataFrame []), st) /\
  evals (snd (solve S a b tol max_iter st)) = evals st.
Proof.
  intros Hv. unfold solve. rewrite Hv. split; reflexivity.
Qed.

(** C5.  On a valid solver, when [f(a) * f(b) >= 0] (zero included) [solve]
    returns the bracket-failure message instead of raising; the history
    receives no row and nothing is evaluated beyond [f(a)] and [f(b)], so no
    iteration and no bracket update takes place. *)
Theorem solve_bracket_failure a b tol max_iter st fa fb :
  self_valid S = true ->
  self_f S a = Ok fa ->
  self_f S b = Ok fb ->
  geb (mul fa fb) zero = true ->
  solve S a b tol max_iter st =
    (Ok (None, Message bracket_error), logged st [Eval_f a; Eval_f b]) /\
  self_history (snd (solve S a b tol max_iter st)) = self_history st.
Proof.
  intros Hv Ha Hb Hg.
  assert (E : solve S a b tol max_iter st =
              (Ok (None, Message bracket_error), logged st [Eval_f a; Eval_f b])).
  { unfold solve. rewrite Hv. change (negb true) with false. cbv iota.
    unfold bind at 1. rewrite call_f_run, Ha.
    unfold bind at 1. rewrite call_f_run, Hb, Hg, logged_logged. reflexivity. }
  split; [exact E|]. now rewrite E.
Qed.

(** C3.  When the Newton attempt succeeds ([f] and [f'] evaluate and
    [abs(f')] is not below 1e-12) but the candidate is not strictly inside
    [(a, b)], the attempt yields the midpoint of the bracket with method
    Bisection and decision "Switched (Newton Overshot Bounds)", and the row
    the pass records carries exactly these. *)
Theorem overshoot_switches_to_bisection tol i l st f_val df_val :
  self_f S (current_x l) = Ok f_val ->
  self_df S (current_x l) = Ok df_val ->
  ltb (nabs df_val) eps12 = false ->
  ltb (loc_a l) (sub (current_x l) (div f_val df_val))
    && ltb (sub (current_x l) (div f_val df_val)) (loc_b l) = false ->
  newton_step S (loc_a l) (loc_b l) (current_x l) st =
    (Ok (midpoint (loc_a l) (loc_b l), "Bisection", "Switched (Newton Overshot Bounds)"),
     logged st [Eval_f (current_x l); Eval_df (current_x l)]) /\
  forall l' stop st',
    iteration S tol i l st = (Ok (l', stop), st') ->
    current_x l' = midpoint (loc_a l) (loc_b l) /\
    exists r,
      self_history st' = self_history st ++ [r] /\
      Iteration r = i /\
      Method r = "Bisection" /\
      Decision_Logic r = "Switched (Newton Overshot Bounds)" /\
      Current_Root_Estimate r = midpoint (loc_a l) (loc_b l).
Proof.
  intros Hf Hd Hz Hi. split.
  - unfold newton_step, try_except, bind.
    rewrite call_f_run, Hf, call_df_run, Hd, Hz, Hi, logged_logged. reflexivity.
  - intros l' stop st' Hit.
    apply iteration_ok in Hit
      as (x & meth & note & ev & f_new & f_a & Hn & _ & _ & -> & _ & Hh & _).
    pose proof (newton_outcome_overshoot S _ _ _ _ _ _ _ Hn Hf Hd Hz Hi) as E.
    injection E as -> -> ->.
    split.
    + unfold locals_of. now destruct (update_bracket _ _ _ _ _).
    + eexists; split; [exact Hh|].
      unfold row_of. destruct (update_bracket _ _ _ _ _); simpl. repeat split.
Qed.

(** C6.  Past validation, with [max_iter >= 0], the table [solve] returns is
    the history the loop built; its rows are numbered 1, 2, ..., one per
    pass, their number is the number of passes run (the final value of the
    loop variable), and that is at most [max_iter].  Each completed pass
    appends exactly one row, carrying its own number. *)
Theorem history_length_is_iterations a b tol max_iter st root rep st' :
  bracket_accepted S a b ->
  0 <= max_iter ->
  solve S a b tol max_iter st = (Ok (root, rep), st') ->
  (exists l rows,
     solve_loop S a b tol max_iter (logged st [Eval_f a; Eval_f b]) = (Ok l, st') /\
     root = Some (current_x l) /\
     rep = DataFrame rows /\
     self_history st' = rows /\
     map (@Iteration num) rows = map Z.of_nat (seq 1 (List.length rows)) /\
     Z.of_nat (List.length rows) = loc_i l /\
     loc_i l <= max_iter) /\
  (forall i l0 st0 l1 stop st1,
     iteration S tol i l0 st0 = (Ok (l1, stop), st1) ->
     exists r, self_history st1 = self_history st0 ++ [r] /\ Iteration r = i).
Proof.
  intros Hacc Hm Hsolve. split.
  - rewrite (solve_accepted S a b tol max_iter st Hacc) in Hsolve.
    destruct (solve_loop S a b tol max_iter _) as [[l|e] st1] eqn:Hloop; [|discriminate].
    injection Hsolve as <- <- <-.
    rewrite solve_loop_run in Hloop.
    apply (for_loop_rule S (numbered 1 []) tol (numbered_step S tol 1 []))
      in Hloop as (j & Hj & _ & Hi & rows & Hh & Hrows).
    2:{ split; [lia|]. split; [reflexivity|]. exists []. split; reflexivity. }
    simpl in Hh. exists l, rows.
    assert (Hlen : List.length rows = Z.to_nat (j - 1)).
    { rewrite <- (length_map (@Iteration num)), Hrows, length_map, length_seq. reflexivity. }
    repeat split; try reflexivity; try assumption; try lia.
    + now rewrite Hh.
    + rewrite Hrows, Hlen, <- seq_shift, map_map.
      apply map_ext. intros k. lia.
  - intros i l0 st0 l1 stop st1 Hit.
    apply iteration_ok in Hit
      as (x & meth & note & ev & f_new & f_a & _ & _ & _ & _ & _ & Hh & _).
    eexists; split; [exact Hh|].
    unfold row_of. now destruct (update_bracket _ _ _ _ _).
Qed.

(** C2, as the code has it.  The Newton attempt never raises: an exception
    of [f] or [f'] inside it, or a derivative below the threshold, is caught
    and answered by the bisection midpoint with decision "Switched (Newton
    Singularity)".  The bracket update that follows is outside the handler:
    the pass raises [e] exactly when [f] raises [e] at the chosen estimate,
    or evaluates there and raises [e] at the lower bound. *)
Theorem newton_failures_fall_back_to_bisection tol i l st :
  exists x meth note ev,
    newton_step S (loc_a l) (loc_b l) (current_x l) st = (Ok (x, meth, note), logged st ev) /\
    (newton_unavailable S (current_x l) ->
     (x, meth, note) =
     (midpoint (loc_a l) (loc_b l), "Bisection", "Switched (Newton Singularity)")) /\
    forall e,
      (exists st', iteration S tol i l st = (Raise e, st')) <->
      (self_f S x = Raise e \/
       (exists f_new, self_f S x = Ok f_new) /\ self_f S (loc_a l) = Raise e).
Proof.
  destruct (newton_step_run S (loc_a l) (loc_b l) (current_x l) st)
    as ([[x meth] note] & ev & Hrun & Hn).
  exists x, meth, note, ev. split; [exact Hrun|]. split.
  - intros Hu. eapply newton_outcome_unavailable; eassumption.
  - intros e. rewrite (iteration_run S tol i l st _ _ _ _ Hrun). split.
    + intros (st' & Hr).
      destruct (self_f S x) as [f_new|e1]; [|left; congruence].
      destruct (self_f S (loc_a l)) as [f_a|e1]; [discriminate|].
      right. split; [now exists f_new|congruence].
    + intros [Hx|((f_new & Hx) & Ha)]; rewrite Hx; [|rewrite Ha]; eexists; reflexivity.
Qed.

(** C8, as the code has it.  [self.history] is replaced by an empty list
    once validation has passed, before the first pass of the loop: whatever
    it held before has no influence on what [solve] returns or leaves
    behind.  A call that does not get past validation (invalid solver, an
    exception of [f] at an endpoint, bracket failure) leaves [self.history]
    as it found it. *)
Theorem history_reset_after_validation a b tol max_iter st :
  (bracket_accepted S a b ->
   forall h,
     solve S a b tol max_iter (with_history h st) = solve S a b tol max_iter st) /\
  (~ bracket_accepted S a b ->
   self_history (snd (solve S a b tol max_iter st)) = self_history st).
Proof.
  split.
  - intros Hacc h. rewrite !(solve_accepted S a b tol max_iter _ Hacc), !solve_loop_run.
    reflexivity.
  - intros Hno. unfold solve.
    destruct (self_valid S) eqn:Hv; [|reflexivity].
    change (negb true) with false. cbv iota.
    unfold bind at 1. rewrite call_f_run.
    destruct (self_f S a) as [fa|e] eqn:Ha; [|reflexivity].
    unfold bind at 1. rewrite call_f_run.
    destruct (self_f S b) as [fb|e] eqn:Hb; [|reflexivity].
    destruct (geb (mul fa fb) zero) eqn:Hg; [reflexivity|].
    exfalso. apply Hno. split; [exact Hv|]. now exists fa, fb.
Qed.

End Control.

(* ------------------------------------------------------------------ *)
(** ** Exact arithmetic *)

Section Exact.

Local Open Scope Q_scope.

Lemma Qltb_lt x y : Qltb x y = true <-> x < y.
Proof. unfold Qltb. rewrite Qlt_alt. destruct (x ?= y); split; congruence. Qed.

Lemma Qltb_ge x y : Qltb x y = false <-> y <= x.
Proof.
  split.
  - intros E. apply Qnot_lt_le. intros L. apply Qltb_lt in L. congruence.
  - intros L. destruct (Qltb x y) eqn:E; [|reflexivity].
    apply Qltb_lt in E. exfalso. exact (Qle_not_lt _ _ L E).
Qed.

Lemma Qgeb_false x y : Qle_bool y x = false -> x < y.
Proof.
  intros E. apply Qnot_le_lt. intros L. apply Qle_bool_iff in L. congruence.
Qed.

Lemma Qabs_bound x w : Qabs x <= w <-> - w <= x /\ x <= w.
Proof. apply Qabs_Qle_condition. Qed.

Lemma Qabs_self x : x <= Qabs x /\ - x <= Qabs x.
Proof.
  split; [apply Qle_Qabs|]. rewrite <- Qabs_opp. apply Qle_Qabs.
Qed.

(** The guard on the derivative excludes a zero divisor. *)
Lemma guard_excludes_zero d : Qltb (Qabs d) eps12 = false -> ~ d == 0.
Proof.
  intros Hg Hd. apply Qltb_ge in Hg. rewrite Hd in Hg.
  revert Hg. apply Qlt_not_le. reflexivity.
Qed.

Lemma opposite_signs u v w :
  u * v < 0 -> 0 <= u * w -> 0 <= w * v -> w == 0.
Proof.
  intros Huv Huw Hwv.
  destruct (Q_dec w 0) as [[Neg|Pos]|Z0]; [| |exact Z0]; exfalso.
  - destruct (Q_dec u 0) as [[Nu|Pu]|Zu]; [nra|nra|].
    rewrite Zu in Huv. lra.
  - destruct (Q_dec u 0) as [[Nu|Pu]|Zu]; [nra|nra|].
    rewrite Zu in Huv. lra.
Qed.

Variable S : HybridSolver Q.

(** The estimate the Newton attempt chooses is strictly inside the bracket
    or is its midpoint. *)
Lemma newton_choice a b x x' meth note ev :
  newton_outcome S a b x (x', meth, note) ev ->
  (a < x' /\ x' < b) \/ x' = (a + b) / 2.
Proof.
  inversion 1; subst; try (right; reflexivity).
  left. match goal with E : (_ && _)%bool = true |- _ => apply andb_prop in E as [E1 E2] end.
  split; apply Qltb_lt; assumption.
Qed.

Lemma update_bracket_cases a b x f_a f_new :
  (update_bracket a b x f_a f_new = (a, x) /\ f_a * f_new < 0) \/
  (update_bracket a b x f_a f_new = (x, b) /\ 0 <= f_a * f_new).
Proof.
  unfold update_bracket. change (ltb (mul f_a f_new) zero) with (Qltb (f_a * f_new) 0).
  destruct (Qltb (f_a * f_new) 0) eqn:E.
  - left. split; [reflexivity|now apply Qltb_lt].
  - right. split; [reflexivity|now apply Qltb_ge].
Qed.

(** The width of the bracket after a pass is at most the width before. *)
Lemma width_shrinks a b x x' meth note ev f_a f_new a' b' :
  newton_outcome S a b x (x', meth, note) ev ->
  update_bracket a b x' f_a f_new = (a', b') ->
  Qabs (b' - a') <= Qabs (b - a).
Proof.
  intros Hn Hu. apply Qabs_bound.
  destruct (Qabs_self (b - a)) as [W1 W2]. revert W1 W2.
  generalize (Qabs (b - a)). intros w W1 W2.
  destruct (newton_choice _ _ _ _ _ _ _ Hn) as [[L1 L2]|E0];
    destruct (update_bracket_cases a b x' f_a f_new) as [[E _]|[E _]];
    rewrite E in Hu; injection Hu as <- <-; try subst x'; split; halves.
Qed.

(** One pass from a bracketed state: the bracket is kept, unless the
    estimate is an exact root, in which case it becomes the lower bound and
    the pass ends the loop. *)
Lemma pass_keeps_bracket tol i l st l' stop st' :
  bracketed S l ->
  iteration S tol i l st = (Ok (l', stop), st') ->
  bracketed S l' \/
  (stop = true /\ exact_root S (current_x l') /\
   loc_a l' = current_x l' /\ loc_b l' = loc_b l).
Proof.
  intros (u & v & Hu & Hv & Huv) Hit.
  change (Qltb (u * v) 0 = true) in Huv. apply Qltb_lt in Huv.
  apply iteration_ok in Hit
    as (x & meth & note & ev & f_new & f_a & Hn & Hx & Ha & -> & -> & _ & _).
  rewrite Hu in Ha. injection Ha as <-.
  unfold locals_of, stop_of.
  destruct (update_bracket_cases (loc_a l) (loc_b l) x u f_new) as [[E L]|[E L]];
    rewrite E; simpl.
  - left. exists u, f_new. simpl. repeat split; try assumption.
    now apply Qltb_lt.
  - destruct (Qlt_le_dec (f_new * v) 0) as [Neg|Pos].
    + left. exists f_new, v. simpl. repeat split; try assumption.
      now apply Qltb_lt.
    + right. assert (Z0 : f_new == 0) by (eapply opposite_signs; eassumption).
      repeat split.
      * apply orb_true_iff. right. apply Qltb_lt. rewrite Z0. reflexivity.
      * exists f_new. split; assumption.
Qed.

Lemma entry_bracketed a b : bracket_accepted S a b -> bracketed S (entry a b).
Proof.
  intros (_ & fa & fb & Ha & Hb & Hg).
  exists fa, fb. simpl. repeat split; try assumption.
  apply Qltb_lt. now apply Qgeb_false.
Qed.

Lemma above_width_step tol i l st l' stop st' :
  above_width l st ->
  iteration S tol i l st = (Ok (l', stop), st') ->
  above_width l' st'.
Proof.
  intros [Hd Hw] Hit.
  apply iteration_ok in Hit
    as (x & meth & note & ev & f_new & f_a & Hn & _ & _ & -> & _ & Hh & _).
  unfold above_width. rewrite Hh. clear Hh.
  unfold locals_of, row_of.
  destruct (update_bracket (loc_a l) (loc_b l) x f_a f_new) as [a' b'] eqn:Eu.
  pose proof (width_shrinks _ _ _ _ _ _ _ _ _ _ _ Hn Eu) as Hs.
  cbn [loc_a loc_b]. split.
  - intros k r1 r2 H1 H2.
    destruct (Nat.lt_ge_cases (Datatypes.S k) (List.length (self_history st))) as [Lt|Ge].
    + rewrite nth_error_app1 in H1 by lia. rewrite nth_error_app1 in H2 by lia.
      eapply Hd; eassumption.
    + assert (Hk : Datatypes.S k = List.length (self_history st)).
      { match type of H2 with
        | nth_error ?h _ = _ =>
            assert (Hlt : (Datatypes.S k < List.length h)%nat)
              by (apply nth_error_Some; rewrite H2; discriminate)
        end.
        rewrite length_app in Hlt. simpl in Hlt. lia. }
      rewrite nth_error_app1 in H1 by lia.
      rewrite nth_error_app2 in H2 by lia.
      replace (Datatypes.S k - List.length (self_history st))%nat with O in H2 by lia.
      injection H2 as <-.
      apply nth_error_In in H1. apply Hw in H1.
      eapply Qle_trans; [exact Hs|exact H1].
  - intros r Hr. apply in_app_or in Hr as [Hr|[<-|[]]].
    + apply Hw in Hr. eapply Qle_trans; [exact Hs|exact Hr].
    + apply Qle_refl.
Qed.

Lemma inside_step tol i l st l' stop st' :
  inside l ->
  iteration S tol i l st = (Ok (l', stop), st') ->
  inside l'.
Proof.
  intros (Hab & _) Hit.
  apply iteration_ok in Hit
    as (x & meth & note & ev & f_new & f_a & Hn & _ & _ & -> & _ & _ & _).
  unfold inside, locals_of.
  assert (Hx : loc_a l < x /\ x < loc_b l).
  { destruct (newton_choice _ _ _ _ _ _ _ Hn) as [Hin| ->]; [exact Hin|split; halves]. }
  destruct (update_bracket_cases (loc_a l) (loc_b l) x f_a f_new) as [[E _]|[E _]];
    rewrite E; cbn [loc_a loc_b current_x]; lra.
Qed.

(** A bisection pass halves the width exactly. *)
Lemma bisection_width_exact tol i l st l' st' :
  bisection_pass S tol i l st l' st' ->
  Qabs (loc_b l' - loc_a l') == Qabs (loc_b l - loc_a l) / 2.
Proof.
  intros Hb. apply bisection_pass_midpoint in Hb as (_ & Hcase & _).
  change (midpoint (loc_a l) (loc_b l)) with ((loc_a l + loc_b l) / 2) in Hcase.
  assert (E : loc_b l' - loc_a l' == (loc_b l - loc_a l) / 2).
  { destruct Hcase as [[-> ->]|[-> ->]]; field. }
  rewrite E. unfold Qdiv. rewrite Qabs_Qmult. reflexivity.
Qed.

(** In a run past validation, [f(a) * f(b) < 0] holds before the bracket
    update of every pass.  After the update it holds again, unless the
    estimate is an exact root ([f(current_x) = 0]): then the update moves
    the lower bound onto the root, the product is zero, and the pass ends
    the loop. *)
Lemma bracket_kept_exactly a b tol st j l stj :
  bracket_accepted S a b ->
  reaches S tol 1 (entry a b) (with_history [] (logged st [Eval_f a; Eval_f b])) j l stj ->
  bracketed S l /\
  forall l' stop st',
    iteration S tol j l stj = (Ok (l', stop), st') ->
    bracketed S l' \/
    (stop = true /\ exact_root S (current_x l') /\
     loc_a l' = current_x l' /\ loc_b l' = loc_b l).
Proof.
  intros Hacc Hr.
  assert (Hb : bracketed S l).
  { induction Hr as [|i l0 st0 l1 st1 _ IH Hit].
    - now apply entry_bracketed.
    - destruct (pass_keeps_bracket _ _ _ _ _ _ _ IH Hit) as [Hk|(Hstop & _)];
        [exact Hk|discriminate Hstop]. }
  split; [exact Hb|].
  intros l' stop st' Hit. eapply pass_keeps_bracket; eassumption.
Qed.

(** In the table a run past validation returns, the error estimate of a row
    is never above that of the row before. *)
Lemma errors_descend_exactly a b tol max_iter st root rows st' :
  bracket_accepted S a b ->
  solve S a b tol max_iter st = (Ok (root, DataFrame rows), st') ->
  descending rows.
Proof.
  intros Hacc Hsolve.
  rewrite (solve_accepted S a b tol max_iter st Hacc) in Hsolve.
  destruct (solve_loop S a b tol max_iter _) as [[l|e] st1] eqn:Hloop; [|discriminate].
  injection Hsolve as _ <- _.
  rewrite solve_loop_run in Hloop.
  apply (for_loop_rule S (fun _ => above_width) tol) in Hloop as (_ & _ & Hd & _).
  - exact Hd.
  - intros i l0 st0 l1 stop st2. apply above_width_step.
  - split.
    + intros [|k] r1 r2 H1; discriminate H1.
    + intros r [].
Qed.

(** With [a < b], the root a run past validation returns lies between the
    ends of the bracket as the last update left it. *)
Lemma returned_root_inside a b tol max_iter st root rep st' :
  bracket_accepted S a b ->
  a < b ->
  solve S a b tol max_iter st = (Ok (root, rep), st') ->
  exists l,
    solve_loop S a b tol max_iter (logged st [Eval_f a; Eval_f b]) = (Ok l, st') /\
    root = Some (current_x l) /\
    loc_a l <= current_x l /\ current_x l <= loc_b l.
Proof.
  intros Hacc Hab Hsolve.
  rewrite (solve_accepted S a b tol max_iter st Hacc) in Hsolve.
  destruct (solve_loop S a b tol max_iter _) as [[l|e] st1] eqn:Hloop; [|discriminate].
  injection Hsolve as <- _ <-.
  exists l. split; [reflexivity|]. split; [reflexivity|].
  rewrite solve_loop_run in Hloop.
  apply (for_loop_rule S (fun _ l _ => inside l) tol) in Hloop as (_ & _ & _ & Hin).
  - exact Hin.
  - intros i l0 st0 l1 stop st2. apply inside_step.
  - unfold inside, entry. cbn [loc_a loc_b current_x].
    change (midpoint a b) with ((a + b) / 2). repeat split; halves.
Qed.

End Exact.



(** C7, as the code has it.  A pass that takes a bisection step sets
    [current_x] to the midpoint [m = (a + b) / 2] as the arithmetic computes
    it, and leaves the bracket [[a, m]] or [[m, b]]; the row records the
    width of that bracket.  Over exact arithmetic this width is exactly half
    the width before the update. *)
Theorem bisection_halves_the_bracket :
  (forall (num : Type) (N : Number num) (S : HybridSolver num) tol i l st l' st',
      bisection_pass S tol i l st l' st' ->
      current_x l' = midpoint (loc_a l) (loc_b l) /\
      ((loc_a l' = loc_a l /\ loc_b l' = midpoint (loc_a l) (loc_b l)) \/
       (loc_a l' = midpoint (loc_a l) (loc_b l) /\ loc_b l' = loc_b l)) /\
      exists r,
        self_history st' = self_history st ++ [r] /\
        Error_Estimate r = nabs (sub (loc_b l') (loc_a l'))) /\
  (forall (S : HybridSolver Q) tol i l st l' st',
      bisection_pass S tol i l st l' st' ->
      (Qabs (loc_b l' - loc_a l') == Qabs (loc_b l - loc_a l) / 2)%Q).
Proof.
  split.
  - intros num N S tol i l st l' st'. apply bisection_pass_midpoint.
  - intros S tol i l st l' st'. apply bisection_width_exact.
Qed.


(* ================================================================== *)
(** * Runs on binary64 that the specification does not expect *)

Section Counterexamples.

Import Samples.

Local Open Scope float_scope.

(** C1 fails on [f(x) = x] over [[-1, 1]]: the first estimate is the root
    itself, [f(a) * f_new] is [-0.0], which is not below zero, so the lower
    bound moves onto the root and [f(a) * f(b)] is [0 * 1 = 0] after the
    update. *)
Lemma exact_root_breaks_bracket_invariant :
  bracket_accepted identity (-1) 1 /\
  ~ bracket_invariant_throughout identity (-1) 1 tol6 100 fresh.
Proof.
  split.
  - split; [reflexivity|]. exists (-1), 1. repeat split.
  - intros Hc.
    destruct (Hc 1%Z _ _ (reaches_first _ _ _ _ _) ltac:(lia)) as [_ Hafter].
    specialize (Hafter {| loc_a := 0; loc_b := 1; current_x := 0; loc_i := 1 |} true _ eq_refl).
    destruct Hafter as (f_a & f_b & Ha & Hb & Hlt).
    injection Ha as <-. injection Hb as <-. discriminate Hlt.
Qed.

(** The same run over the rationals: rounding plays no part in it. *)
Lemma exact_root_breaks_bracket_invariant_exactly :
  ~ bracket_invariant_throughout identity_exact (-1)%Q 1%Q (1 # 1000000)%Q 100 fresh_exact.
Proof.
  intros Hc.
  destruct (Hc 1%Z _ _ (reaches_first _ _ _ _ _) ltac:(lia)) as [_ Hafter].
  destruct (iteration identity_exact (1 # 1000000)%Q 1
              (entry (-1)%Q 1%Q)
              (with_history [] (logged fresh_exact [Eval_f (-1)%Q; Eval_f 1%Q])))
    as [[[l' stop]|e] st'] eqn:Hit; vm_compute in Hit; [|discriminate Hit].
  specialize (Hafter l' stop st' eq_refl).
  injection Hit as <- _ _.
  destruct Hafter as (f_a & f_b & Ha & Hb & Hlt).
  injection Ha as <-. injection Hb as <-. discriminate Hlt.
Qed.

(** In binary64 it does not take an exact root.  [x*(x + 3)] on
    [[-1e-320, 1]]: the bracket is [[-1e-320, 0.00125]] when pass 3 begins,
    and its estimate is 5.2e-07, where [f] is 1.56e-06.  [f(a) * f_new] is
    -3e-320 * 1.56e-06, which underflows to [-0.0] and is not below zero:
    the lower bound moves past the root 0, [f] is positive at both ends of
    the new bracket, and the loop goes on. *)
Lemma underflow_breaks_bracket_invariant :
  bracket_accepted two_roots minus_tiny 1 /\
  exists l st l' st',
    reaches two_roots tol6 1 (entry minus_tiny 1)
      (with_history [] (logged fresh [Eval_f minus_tiny; Eval_f 1])) 3 l st /\
    bracketed two_roots l /\
    iteration two_roots tol6 3 l st = (Ok (l', false), st') /\
    loc_a l' = 0x1.17632f8444p-21 /\ loc_b l' = 0x1.47ae147ae148p-10 /\
    self_f two_roots (current_x l') = Ok 0x1.a314cc0a0b6p-20 /\
    (exists v_a v_b,
        self_f two_roots (loc_a l') = Ok v_a /\ self_f two_roots (loc_b l') = Ok v_b /\
        ltb zero v_a = true /\ ltb zero v_b = true) /\
    ~ bracketed two_roots l'.
Proof.
  split.
  - split; [reflexivity|]. eexists _, _. repeat split.
  - eexists _, _, _, _. split.
    { change 3%Z with (1 + 1 + 1)%Z.
      eapply reaches_next; [eapply reaches_next; [apply reaches_first|]|];
        vm_compute; reflexivity. }
    split; [eexists _, _; repeat split|].
    split; [vm_compute; reflexivity|].
    split; [reflexivity|]. split; [reflexivity|]. split; [reflexivity|].
    split; [eexists _, _; repeat split|].
    intros (f_a & f_b & Ha & Hb & Hlt).
    injection Ha as <-. injection Hb as <-. discriminate Hlt.
Qed.


(** C2 fails on [f(x) = 1/x] over [[-1, 1]]: [f] raises at the midpoint 0
    inside the Newton attempt, the handler answers with the same midpoint,
    and the bracket update evaluates [f] there again, outside the handler. *)
Lemma pole_at_midpoint_propagates :
  bracket_accepted reciprocal (-1) 1 /\
  solve reciprocal (-1) 1 tol6 100 fresh =
    (Raise (Exn "ZeroDivisionError" "float division by zero"),
     {| self_history := [];
        evals := [Eval_f (-1); Eval_f 1; Eval_f 0; Eval_f 0] |}).
Proof.
  split.
  - split; [reflexivity|]. exists (-1), 1. repeat split.
  - vm_compute. reflexivity.
Qed.

(** C7 fails on [[0.1, 0.3]]: the pass bisects at 0.2 and keeps [[0.1, 0.2]],
    whose width is 0.1, while half the width before, [abs(0.3 - 0.1) / 2],
    is 0.09999999999999999. *)
Lemma halving_is_inexact_in_binary64 :
  exists l' st',
    bisection_pass flat_cubic tol6 1 (entry tenth three_tenths) fresh l' st' /\
    loc_a l' = tenth /\ loc_b l' = fifth /\
    nabs (sub (loc_b l') (loc_a l')) = 0x1.999999999999ap-4 /\
    div (nabs (sub three_tenths tenth)) two = 0x1.9999999999999p-4 /\
    (nabs (sub (loc_b l') (loc_a l')) =? div (nabs (sub three_tenths tenth)) two) = false.
Proof.
  eexists. eexists. split.
  - eexists. eexists. split; [vm_compute; reflexivity|]. split; reflexivity.
  - repeat split; vm_compute; reflexivity.
Qed.

(** C8 fails when a call that fails validation follows a call that
    succeeded: the rows of the first call are still in [self.history]. *)
Lemma stale_history_survives_bracket_failure :
  let st1 := snd (solve sqrt2 0 2 tol6 100 fresh) in
  List.length (self_history st1) = 5%nat /\
  fst (solve sqrt2 2 3 tol6 100 st1) = Ok (None, Message bracket_error) /\
  self_history (snd (solve sqrt2 2 3 tol6 100 st1)) = self_history st1.
Proof.
  repeat split; vm_compute; reflexivity.
Qed.



End Counterexamples.

(* ================================================================== *)
(** * The theorems at work on sample runs *)

Section Witnesses.

Import Samples.

(** An unparsable string: [solve] returns at once. *)
Lemma solve_invalid_returns_none_witness :
  self_valid (fst unparsed) = false /\
  solve (fst unparsed) (-1)%float 1%float tol6 100 (snd unparsed) =
    (Ok (None, DataFrame []), snd unparsed) /\
  evals (snd (solve (fst unparsed) (-1)%float 1%float tol6 100 (snd unparsed))) =
    evals (snd unparsed).
Proof.
  split; [reflexivity|].
  apply (solve_invalid_returns_none (fst unparsed)). reflexivity.
Defined.

(** [x**2 + 1] on [[-1, 1]]: both endpoint values are 2. *)
Lemma solve_bracket_failure_witness :
  solve no_root (-1)%float 1%float tol6 100 fresh =
    (Ok (None, Message bracket_error),
     logged fresh [Eval_f (-1)%float; Eval_f 1%float]) /\
  self_history (snd (solve no_root (-1)%float 1%float tol6 100 fresh)) =
    self_history fresh.
Proof.
  apply (solve_bracket_failure no_root (-1)%float 1%float tol6 100 fresh 2%float 2%float);
    reflexivity.
Defined.

(** [x] on [[0, 1]]: [f] is exactly zero at an endpoint, the product is
    zero, and the call ends in bracket failure. *)
Lemma zero_at_endpoint_is_bracket_failure :
  solve identity 0%float 1%float tol6 100 fresh =
    (Ok (None, Message bracket_error),
     logged fresh [Eval_f 0%float; Eval_f 1%float]).
Proof. vm_compute. reflexivity. Qed.

(** [x**3 - 2*x + 2] on [[-2, 1]]: from -0.5 Newton aims beyond 1. *)
Lemma overshoot_switches_to_bisection_witness :
  ltb (sub (-0.5)%float (div 2.875%float (-1.25)%float)) 1%float = false /\
  exists r,
    self_history (snd (iteration cubic tol6 1 (entry (-2)%float 1%float) fresh)) =
      self_history fresh ++ [r] /\
    Method r = "Bisection" /\
    Decision_Logic r = "Switched (Newton Overshot Bounds)" /\
    Current_Root_Estimate r = (-0.5)%float.
Proof.
  split; [vm_compute; reflexivity|].
  destruct (overshoot_switches_to_bisection cubic tol6 1
              (entry (-2)%float 1%float) fresh 2.875%float (-1.25)%float) as [_ Hrow];
    try (vm_compute; reflexivity).
  destruct (Hrow {| loc_a := (-2)%float; loc_b := (-0.5)%float;
                    current_x := (-0.5)%float; loc_i := 1 |}
                 false
                 (snd (iteration cubic tol6 1 (entry (-2)%float 1%float) fresh)))
    as (_ & r & Hh & _ & Hm & Hd & Hx).
  { vm_compute. reflexivity. }
  exists r. split; [exact Hh|]. split; [exact Hm|]. split; [exact Hd|].
  rewrite Hx. vm_compute. reflexivity.
Defined.

(** Three passes of the cubic: three rows. *)
Lemma history_length_is_iterations_witness :
  exists l rows,
    solve_loop cubic (-2)%float 1%float tol6 3
      (logged fresh [Eval_f (-2)%float; Eval_f 1%float]) =
      (Ok l, snd (solve cubic (-2)%float 1%float tol6 3 fresh)) /\
    map (@Iteration float) rows = [1; 2; 3] /\
    loc_i l = 3.
Proof.
  destruct (history_length_is_iterations cubic (-2)%float 1%float tol6 3 fresh
              (returned_root (fst (solve cubic (-2)%float 1%float tol6 3 fresh)))
              (DataFrame (returned_rows (fst (solve cubic (-2)%float 1%float tol6 3 fresh))))
              (snd (solve cubic (-2)%float 1%float tol6 3 fresh)))
    as [(l & rows & Hloop & _ & Hrep & _ & Hnum & Hlen & _) _].
  - split; [reflexivity|]. exists (-2)%float, 1%float. repeat split.
  - lia.
  - vm_compute. reflexivity.
  - exists l, rows. injection Hrep as <-.
    split; [exact Hloop|]. split; [exact Hnum|]. rewrite <- Hlen. reflexivity.
Defined.

(** The pole of [1/x]: the attempt is caught, the update is not. *)
Lemma newton_failures_fall_back_to_bisection_witness :
  exists x meth note ev,
    newton_step reciprocal (-1)%float 1%float 0%float fresh =
      (Ok (x, meth, note), logged fresh ev) /\
    (x, meth, note) = (0%float, "Bisection", "Switched (Newton Singularity)") /\
    exists st',
      iteration reciprocal tol6 1 (entry (-1)%float 1%float) fresh =
        (Raise (Exn "ZeroDivisionError" "float division by zero"), st').
Proof.
  destruct (newton_failures_fall_back_to_bisection reciprocal tol6 1
              (entry (-1)%float 1%float) fresh)
    as (x & meth & note & ev & Hrun & Hu & Hraise).
  exists x, meth, note, ev. split; [exact Hrun|].
  assert (E : (x, meth, note) = (0%float, "Bisection", "Switched (Newton Singularity)")).
  { apply Hu. left. eexists. reflexivity. }
  split; [exact E|].
  apply Hraise. left. injection E as -> _ _. reflexivity.
Defined.

(** Whatever [self.history] held, a run on [[0, 2]] returns the same. *)
Lemma history_reset_after_validation_witness :
  solve sqrt2 0%float 2%float tol6 100
    (with_history (self_history (snd (solve cubic (-2)%float 1%float tol6 3 fresh))) fresh) =
  solve sqrt2 0%float 2%float tol6 100 fresh.
Proof.
  apply (proj1 (history_reset_after_validation sqrt2 0%float 2%float tol6 100 fresh)).
  split; [reflexivity|]. exists (-2)%float, 2%float. repeat split.
Defined.

Local Open Scope Q_scope.




(** The first pass of the cubic bisects [[-2, 1]] at -1/2. *)
Lemma bisection_halves_the_bracket_witness :
  exists l' st',
    bisection_pass cubic_exact (1 # 1000000) 1 (entry (-2) 1) fresh_exact l' st' /\
    Qabs (loc_b l' - loc_a l') == Qabs (1 - (-2)) / 2.
Proof.
  assert (Hpass : exists l' st',
            bisection_pass cubic_exact (1 # 1000000) 1 (entry (-2) 1) fresh_exact l' st').
  { eexists. eexists. eexists. eexists.
    split; [vm_compute; reflexivity|]. split; reflexivity. }
  destruct Hpass as (l' & st' & Hpass).
  exists l', st'. split; [exact Hpass|].
  exact (proj2 bisection_halves_the_bracket cubic_exact _ _ _ _ _ _ Hpass).
Defined.

End Witnesses.

(* ================================================================== *)
(** * Part III.  Further properties of the code *)

(* ------------------------------------------------------------------ *)
(** ** Of [solve], whatever the arithmetic *)

Section MoreControl.

Context {num : Type} `{Number num}.

Variable S : HybridSolver num.

Lemma solve_accepted_ok a b tol max_iter st root rep st' :
  bracket_accepted S a b ->
  solve S a b tol max_iter st = (Ok (root, rep), st') ->
  exists l,
    for_loop S tol (Z.to_nat max_iter) 1 (entry a b)
      (with_history [] (logged st [Eval_f a; Eval_f b])) = (Ok l, st') /\
    root = Some (current_x l) /\
    rep = DataFrame (self_history st').
Proof.
  intros Hacc Hsolve.
  rewrite (solve_accepted S a b tol max_iter st Hacc), solve_loop_run in Hsolve.
  destruct (for_loop S tol _ 1 _ _) as [[l|e] st1] eqn:Hloop; [|discriminate].
  injection Hsolve as <- <- <-. exists l. auto.
Qed.

(** What holds of every row a pass can write holds of the whole history. *)
Lemma history_forall (Q : row num -> Prop) tol :
  (forall i l x meth note ev f_new f_a,
      newton_outcome S (loc_a l) (loc_b l) (current_x l) (x, meth, note) ev ->
      self_f S x = Ok f_new ->
      self_f S (loc_a l) = Ok f_a ->
      Q (row_of tol i l x meth note f_a f_new)) ->
  forall n i l st lf stf,
    Forall Q (self_history st) ->
    for_loop S tol n i l st = (Ok lf, stf) ->
    Forall Q (self_history stf).
Proof.
  intros HQ n i l st lf stf H0 Hloop.
  apply (for_loop_rule S (fun _ _ st => Forall Q (self_history st)) tol)
    in Hloop as (_ & _ & Hf); [exact Hf| |exact H0].
  intros j l0 st0 l1 stop st1 Hall Hit.
  apply iteration_ok in Hit
    as (x & meth & note & ev & f_new & f_a & Hn & Hx & Ha & _ & _ & Hh & _).
  rewrite Hh. apply Forall_app. split; [exact Hall|].
  constructor; [|constructor]. eapply HQ; eassumption.
Qed.

Lemma row_of_fields tol i l x meth note f_a f_new :
  Iteration (row_of tol i l x meth note f_a f_new) = i /\
  Method (row_of tol i l x meth note f_a f_new) = meth /\
  Current_Root_Estimate (row_of tol i l x meth note f_a f_new) = x /\
  Function_Value (row_of tol i l x meth note f_a f_new) = f_new /\
  Decision_Logic (row_of tol i l x meth note f_a f_new) = note.
Proof.
  unfold row_of. destruct (update_bracket _ _ _ _ _). simpl. repeat split.
Qed.

Lemma stop_of_row tol i l x meth note f_a f_new :
  stop_of tol l x f_a f_new =
  row_converged tol (row_of tol i l x meth note f_a f_new).
Proof.
  unfold stop_of, row_of, row_converged.
  destruct (update_bracket _ _ _ _ _). reflexivity.
Qed.

Lemma newton_outcome_evals a b x r ev :
  newton_outcome S a b x r ev ->
  ev = [Eval_f x; Eval_df x] \/ ev = [Eval_f x].
Proof. destruct 1; auto. Qed.

Lemma newton_outcome_accepted a b x r ev f_val df_val :
  newton_outcome S a b x r ev ->
  self_f S x = Ok f_val ->
  self_df S x = Ok df_val ->
  ltb (nabs df_val) eps12 = false ->
  ltb a (sub x (div f_val df_val)) && ltb (sub x (div f_val df_val)) b = true ->
  r = (sub x (div f_val df_val), "Newton-Raphson", "Accepted (Step is Safe)").
Proof.
  intros Hn Hf Hd Hz Hi.
  destruct Hn as [fv dv Hf' Hd' Hz' Hi'|fv dv Hf' Hd' Hz' Hi'|fv dv Hf' Hd' Hz'|fv e Hf' Hd'|e Hf'];
    congruence.
Qed.

(** The passes before the one a loop stands at all failed the stopping
    test, and each left one row. *)
Lemma reaches_unconverged tol i0 l0 st0 i l st :
  reaches S tol i0 l0 st0 i l st ->
  exists rows,
    self_history st = self_history st0 ++ rows /\
    Forall (fun r => row_converged tol r = false) rows /\
    Z.of_nat (List.length rows) = i - i0.
Proof.
  induction 1 as [|i l st l' st' _ (rows & Hh & Hall & Hlen) Hit].
  - exists []. rewrite app_nil_r. repeat split; [constructor|simpl; lia].
  - apply iteration_ok in Hit
      as (x & meth & note & ev & f_new & f_a & _ & _ & _ & _ & Hstop & Hh' & _).
    exists (rows ++ [row_of tol i l x meth note f_a f_new]).
    rewrite Hh', Hh, app_assoc. split; [reflexivity|]. split.
    + apply Forall_app. split; [exact Hall|].
      constructor; [|constructor]. rewrite <- (stop_of_row tol i). now rewrite <- Hstop.
    + rewrite length_app. simpl. lia.
Qed.

(** The last pass of a run: either no pass was run and the midpoint is
    returned with an empty table, or the table ends with the row of the last
    pass; that row carries the returned root, the rows before it failed the
    stopping test, and it passed the test unless the range was exhausted. *)
Lemma solve_last_pass a b tol max_iter st root rep st' :
  bracket_accepted S a b ->
  solve S a b tol max_iter st = (Ok (root, rep), st') ->
  (max_iter <= 0 /\ root = Some (midpoint a b) /\ rep = DataFrame []) \/
  exists front last,
    rep = DataFrame (front ++ [last]) /\
    root = Some (Current_Root_Estimate last) /\
    Forall (fun r => row_converged tol r = false) front /\
    1 <= Z.of_nat (List.length (front ++ [last])) <= max_iter /\
    (row_converged tol last = true \/
     Z.of_nat (List.length (front ++ [last])) = max_iter).
Proof.
  intros Hacc Hsolve.
  destruct (solve_accepted_ok _ _ _ _ _ _ _ _ Hacc Hsolve) as (l & Hloop & -> & ->).
  apply for_loop_reaches in Hloop
    as [(Hn & -> & ->)|(j & lj & stj & stop & Hr & Hj & Hit & Hend)].
  - left. repeat split. lia.
  - right. apply (reaches_unconverged tol) in Hr as (rows & Hh & Hall & Hlen).
    simpl in Hh.
    apply iteration_ok in Hit
      as (x & meth & note & ev & f_new & f_a & _ & _ & _ & -> & -> & Hh' & _).
    exists rows, (row_of tol j lj x meth note f_a f_new).
    rewrite Hh', Hh. split; [reflexivity|].
    destruct (row_of_fields tol j lj x meth note f_a f_new) as (_ & _ & Hx & _).
    rewrite Hx. split.
    { unfold locals_of. now destruct (update_bracket _ _ _ _ _). }
    split; [exact Hall|].
    rewrite length_app. simpl. split; [lia|].
    destruct Hend as [Hstop|Hlast].
    + left. now rewrite <- (stop_of_row tol j).
    + right. lia.
Qed.

Lemma loop_rows_consistent tol n i l st lf stf :
  Forall row_consistent (self_history st) ->
  for_loop S tol n i l st = (Ok lf, stf) ->
  Forall row_consistent (self_history stf).
Proof.
  apply history_forall.
  intros j l0 x meth note ev f_new f_a Hn _ _.
  destruct (row_of_fields tol j l0 x meth note f_a f_new) as (_ & Hm & _ & _ & Hd).
  unfold row_consistent. rewrite Hm, Hd.
  inversion Hn; subst; auto.
Qed.

(** X1.  In the table of a run past validation every row is consistent:
    method "Newton-Raphson" goes with decision "Accepted (Step is Safe)",
    method "Bisection" with one of the two "Switched" decisions; there is no
    other method and no other decision. *)
Theorem rows_are_consistent a b tol max_iter st root rows st' :
  bracket_accepted S a b ->
  solve S a b tol max_iter st = (Ok (root, DataFrame rows), st') ->
  Forall row_consistent rows.
Proof.
  intros Hacc Hsolve.
  destruct (solve_accepted_ok _ _ _ _ _ _ _ _ Hacc Hsolve) as (l & Hloop & _ & E).
  injection E as ->.
  eapply loop_rows_consistent; [|exact Hloop]. simpl. constructor.
Qed.

Lemma loop_rows_residual tol n i l st lf stf :
  Forall (fun r => self_f S (Current_Root_Estimate r) = Ok (Function_Value r))
         (self_history st) ->
  for_loop S tol n i l st = (Ok lf, stf) ->
  Forall (fun r => self_f S (Current_Root_Estimate r) = Ok (Function_Value r))
         (self_history stf).
Proof.
  apply (history_forall
           (fun r => self_f S (Current_Root_Estimate r) = Ok (Function_Value r))).
  intros j l0 x meth note ev f_new f_a _ Hx _.
  destruct (row_of_fields tol j l0 x meth note f_a f_new) as (_ & _ & Hx' & Hv & _).
  now rewrite Hx', Hv.
Qed.

(** X2.  In the table of a run past validation the function value of a row
    is [f] at the estimate of that row. *)
Theorem rows_record_the_residual a b tol max_iter st root rows st' :
  bracket_accepted S a b ->
  solve S a b tol max_iter st = (Ok (root, DataFrame rows), st') ->
  Forall (fun r => self_f S (Current_Root_Estimate r) = Ok (Function_Value r)) rows.
Proof.
  intros Hacc Hsolve.
  destruct (solve_accepted_ok _ _ _ _ _ _ _ _ Hacc Hsolve) as (l & Hloop & _ & E).
  injection E as ->.
  eapply loop_rows_residual; [|exact Hloop]. simpl. constructor.
Qed.

(** X3.  When the Newton attempt succeeds and the candidate
    [current_x - f/f'] is strictly inside [(a, b)], the pass takes it: the
    row has method "Newton-Raphson", decision "Accepted (Step is Safe)" and
    the candidate as estimate, and the candidate becomes one of the two
    bounds while the other bound stays. *)
Theorem candidate_inside_is_accepted tol i l st f_val df_val :
  self_f S (current_x l) = Ok f_val ->
  self_df S (current_x l) = Ok df_val ->
  ltb (nabs df_val) eps12 = false ->
  ltb (loc_a l) (sub (current_x l) (div f_val df_val))
    && ltb (sub (current_x l) (div f_val df_val)) (loc_b l) = true ->
  forall l' stop st',
    iteration S tol i l st = (Ok (l', stop), st') ->
    current_x l' = sub (current_x l) (div f_val df_val) /\
    ((loc_a l' = loc_a l /\ loc_b l' = current_x l') \/
     (loc_a l' = current_x l' /\ loc_b l' = loc_b l)) /\
    exists r,
      self_history st' = self_history st ++ [r] /\
      Method r = "Newton-Raphson" /\
      Decision_Logic r = "Accepted (Step is Safe)" /\
      Current_Root_Estimate r = sub (current_x l) (div f_val df_val).
Proof.
  intros Hf Hd Hz Hi l' stop st' Hit.
  apply iteration_ok in Hit
    as (x & meth & note & ev & f_new & f_a & Hn & _ & _ & -> & _ & Hh & _).
  pose proof (newton_outcome_accepted _ _ _ _ _ _ _ Hn Hf Hd Hz Hi) as E.
  injection E as -> -> ->.
  split; [|split].
  - unfold locals_of. now destruct (update_bracket _ _ _ _ _).
  - unfold locals_of, update_bracket.
    destruct (ltb (mul f_a f_new) zero); simpl; auto.
  - eexists. split; [exact Hh|].
    destruct (row_of_fields tol i l (sub (current_x l) (div f_val df_val))
                "Newton-Raphson" "Accepted (Step is Safe)" f_a f_new)
      as (_ & Hm & Hx & _ & Hdl).
    auto.
Qed.

(** X4.  With [max_iter >= 1] the table of a run past validation is not
    empty, and the root returned is the estimate of its last row. *)
Theorem root_is_the_last_estimate a b tol max_iter st root rows st' :
  bracket_accepted S a b ->
  1 <= max_iter ->
  solve S a b tol max_iter st = (Ok (root, DataFrame rows), st') ->
  exists front last,
    rows = front ++ [last] /\ root = Some (Current_Root_Estimate last).
Proof.
  intros Hacc Hm Hsolve.
  destruct (solve_last_pass _ _ _ _ _ _ _ _ Hacc Hsolve)
    as [(Hle & _)|(front & last & E & Hroot & _)]; [lia|].
  injection E as ->. now exists front, last.
Qed.

(** X5.  The loop stops at the first row that passes the test
    [error < tol or abs(f) < 1e-12]: in the table of a run past validation
    every row but the last fails the test, and the last row passes it
    whenever the table has fewer than [max_iter] rows. *)
Theorem loop_stops_at_first_converged_row a b tol max_iter st root front last st' :
  bracket_accepted S a b ->
  solve S a b tol max_iter st = (Ok (root, DataFrame (front ++ [last])), st') ->
  Forall (fun r => row_converged tol r = false) front /\
  (Z.of_nat (List.length (front ++ [last])) < max_iter ->
   row_converged tol last = true).
Proof.
  intros Hacc Hsolve.
  destruct (solve_last_pass _ _ _ _ _ _ _ _ Hacc Hsolve)
    as [(_ & _ & E)|(front' & last' & E & _ & Hall & _ & Hend)].
  - injection E as E. destruct front; discriminate E.
  - injection E as E. apply app_inj_tail in E as [-> ->].
    split; [exact Hall|]. intros Hlt. destruct Hend as [Hc|Hfull]; [exact Hc|lia].
Qed.

(** X6.  With [max_iter <= 0] a run past validation makes no pass: it
    returns the midpoint of [[a, b]] with an empty table, having emptied
    [self.history] and evaluated only [f(a)] and [f(b)]. *)
Theorem no_pass_returns_the_midpoint a b tol max_iter st :
  bracket_accepted S a b ->
  max_iter <= 0 ->
  solve S a b tol max_iter st =
    (Ok (Some (midpoint a b), DataFrame []),
     with_history [] (logged st [Eval_f a; Eval_f b])).
Proof.
  intros Hacc Hm.
  rewrite (solve_accepted S a b tol max_iter st Hacc), solve_loop_run.
  replace (Z.to_nat max_iter) with O by lia. reflexivity.
Qed.

(** X7.  Validation is not guarded: on a valid solver an exception of [f] at
    [a], or at [b] once [f(a)] has returned, leaves [solve] as it is, and
    [self.history] is not touched. *)
Theorem endpoint_exception_propagates a b tol max_iter st e :
  self_valid S = true ->
  (self_f S a = Raise e \/ ((exists fa, self_f S a = Ok fa) /\ self_f S b = Raise e)) ->
  exists ev,
    solve S a b tol max_iter st = (Raise e, logged st ev) /\
    (ev = [Eval_f a] \/ ev = [Eval_f a; Eval_f b]).
Proof.
  intros Hv Hraise. unfold solve. rewrite Hv. change (negb true) with false. cbv iota.
  unfold bind at 1. rewrite call_f_run.
  destruct Hraise as [Ha|((fa & Ha) & Hb)]; rewrite Ha.
  - exists [Eval_f a]. auto.
  - unfold bind at 1. rewrite call_f_run, Hb, logged_logged.
    exists [Eval_f a; Eval_f b]. auto.
Qed.

Lemma for_loop_raise tol n i l st e st' :
  for_loop S tol n i l st = (Raise e, st') ->
  exists x, self_f S x = Raise e.
Proof.
  revert i l st. induction n as [|n IH]; intros i l st; simpl.
  - discriminate.
  - unfold bind at 1.
    destruct (newton_step_run S (loc_a l) (loc_b l) (current_x l) st)
      as ([[x meth] note] & ev & Hrun & _).
    rewrite (iteration_run S tol i l st _ _ _ _ Hrun).
    destruct (self_f S x) as [f_new|e1] eqn:Ex.
    2:{ intros [= <- _]. now exists x. }
    destruct (self_f S (loc_a l)) as [f_a|e1] eqn:Ea.
    2:{ intros [= <- _]. now exists (loc_a l). }
    destruct (stop_of tol l x f_a f_new); [discriminate|]. apply IH.
Qed.

Lemma solve_raise a b tol max_iter st e st' :
  solve S a b tol max_iter st = (Raise e, st') ->
  exists x, self_f S x = Raise e.
Proof.
  unfold solve. destruct (self_valid S); cbn [negb]; [|discriminate].
  unfold bind at 1. rewrite call_f_run.
  destruct (self_f S a) as [fa|e1] eqn:Ha.
  2:{ intros [= <- _]. now exists a. }
  unfold bind at 1. rewrite call_f_run.
  destruct (self_f S b) as [fb|e1] eqn:Hb.
  2:{ intros [= <- _]. now exists b. }
  destruct (geb (mul fa fb) zero); [discriminate|].
  unfold bind at 1. rewrite solve_loop_run.
  destruct (for_loop S tol _ 1 _ _) as [[l|e1] st1] eqn:Hloop; [discriminate|].
  intros [= <- _]. eapply for_loop_raise; eassumption.
Qed.

(** X8.  Whatever [solve] raises was raised by [f]: the "Zero Derivative"
    error and the exceptions of [f'] never leave it. *)
Theorem solve_raises_only_what_f_raises a b tol max_iter st e st' :
  solve S a b tol max_iter st = (Raise e, st') ->
  exists x, self_f S x = Raise e.
Proof. apply solve_raise. Qed.

(** X20.  A run past validation that returns with fewer than [max_iter]
    rows has converged: [f] evaluates at the returned root to the value of
    the last row, and the last error is below [tol] or that value is below
    1e-12 in absolute value. *)
Theorem early_return_has_converged a b tol max_iter st root rows st' :
  bracket_accepted S a b ->
  solve S a b tol max_iter st = (Ok (Some root, DataFrame rows), st') ->
  Z.of_nat (List.length rows) < max_iter ->
  exists front last,
    rows = front ++ [last] /\
    self_f S root = Ok (Function_Value last) /\
    (ltb (Error_Estimate last) tol = true \/
     ltb (nabs (Function_Value last)) eps12 = true).
Proof.
  intros Hacc Hsolve Hlt.
  assert (Hres : Forall (fun r => self_f S (Current_Root_Estimate r) = Ok (Function_Value r))
                        rows).
  { destruct (solve_accepted_ok _ _ _ _ _ _ _ _ Hacc Hsolve) as (l & Hloop & _ & E).
    injection E as ->.
    eapply loop_rows_residual; [|exact Hloop]. simpl. constructor. }
  destruct (solve_last_pass _ _ _ _ _ _ _ _ Hacc Hsolve)
    as [(Hle & _ & E)|(front & last & E & Hroot & _ & _ & Hend)].
  - injection E as ->. simpl in Hlt. lia.
  - injection E as ->. injection Hroot as ->.
    exists front, last. split; [reflexivity|].
    apply Forall_app in Hres as [_ Hlast]. inversion Hlast as [|r0 t Hv _]; subst r0 t.
    split; [exact Hv|].
    destruct Hend as [Hc|Hfull]; [|lia].
    unfold row_converged in Hc. now apply orb_true_iff in Hc.
Qed.

Lemma counted_step tol e0 i l st l' stop st' :
  counted e0 st ->
  iteration S tol i l st = (Ok (l', stop), st') ->
  counted e0 st'.
Proof.
  intros [Hlo Hhi] Hit.
  apply iteration_ok in Hit
    as (x & meth & note & ev & f_new & f_a & Hn & _ & _ & _ & _ & Hh & He).
  unfold counted. rewrite Hh, He, !length_app. simpl.
  destruct (newton_outcome_evals _ _ _ _ _ Hn) as [-> | ->]; simpl; lia.
Qed.

(** X9.  A run past validation that returns a table of [k] rows has
    evaluated [f] and [f'] between [2 + 3k] and [2 + 4k] times in all: twice
    for validation, then per pass [f] three times and [f'] at most once. *)
Theorem evaluations_per_row a b tol max_iter st root rows st' :
  bracket_accepted S a b ->
  solve S a b tol max_iter st = (Ok (root, DataFrame rows), st') ->
  (List.length (evals st) + 2 + 3 * List.length rows <= List.length (evals st') /\
   List.length (evals st') <= List.length (evals st) + 2 + 4 * List.length rows)%nat.
Proof.
  intros Hacc Hsolve.
  destruct (solve_accepted_ok _ _ _ _ _ _ _ _ Hacc Hsolve) as (l & Hloop & _ & E).
  injection E as ->.
  apply (for_loop_rule S (fun _ _ st' => counted (List.length (evals st) + 2) st') tol)
    in Hloop as (_ & _ & Hc).
  - unfold counted in Hc. lia.
  - intros i l0 st0 l1 stop st1. apply counted_step.
  - unfold counted, with_history, logged. simpl. rewrite length_app. simpl. lia.
Qed.

End MoreControl.

(* ------------------------------------------------------------------ *)
(** ** Of the "Find Root" button *)

Section MoreApp.

Context {num : Type} `{Number num}.

Lemma solve_table_accepted (S : HybridSolver num) a b tol max_iter st root rows st' :
  self_valid S = true ->
  solve S a b tol max_iter st = (Ok (root, DataFrame rows), st') ->
  bracket_accepted S a b.
Proof.
  intros Hv. unfold solve. rewrite Hv. change (negb true) with false. cbv iota.
  unfold bind at 1. rewrite call_f_run.
  destruct (self_f S a) as [fa|e] eqn:Ha; [|discriminate].
  unfold bind at 1. rewrite call_f_run.
  destruct (self_f S b) as [fb|e] eqn:Hb; [|discriminate].
  destruct (geb (mul fa fb) zero) eqn:Hg; [discriminate|].
  intros _. split; [exact Hv|]. now exists fa, fb.
Qed.

Lemma solve_message (S : HybridSolver num) a b tol max_iter st root s st' :
  self_valid S = true ->
  solve S a b tol max_iter st = (Ok (root, Message s), st') ->
  s = bracket_error /\
  st' = logged st [Eval_f a; Eval_f b] /\
  exists fa fb,
    self_f S a = Ok fa /\ self_f S b = Ok fb /\ geb (mul fa fb) zero = true.
Proof.
  intros Hv. unfold solve. rewrite Hv. change (negb true) with false. cbv iota.
  unfold bind at 1. rewrite call_f_run.
  destruct (self_f S a) as [fa|e] eqn:Ha; [|discriminate].
  unfold bind at 1. rewrite call_f_run, logged_logged. simpl app.
  destruct (self_f S b) as [fb|e] eqn:Hb; [|discriminate].
  destruct (geb (mul fa fb) zero) eqn:Hg.
  - intros [= _ <- <-]. split; [reflexivity|]. split; [reflexivity|]. now exists fa, fb.
  - unfold bind at 1.
    destruct (solve_loop S a b tol max_iter _) as [[l|e] st1]; discriminate.
Qed.

Lemma red_filter_split {A : Type} (p q : A -> bool) (l : list A) :
  Forall (fun x => p x = negb (q x)) l ->
  (List.length (filter p l) + List.length (filter q l))%nat = List.length l.
Proof.
  induction 1 as [|x l Hx _ IH]; [reflexivity|].
  simpl. rewrite Hx. destruct (q x); simpl; lia.
Qed.

Variable sympify_diff : string -> exn + (num -> res num) * (num -> res num).

(** A click that ends in the success box: the text parsed, the bracket was
    accepted, and the box shows what [solve] returned. *)
Lemma success_box_inv func_input a_val b_val tol root history st :
  find_root_clicked sympify_diff func_input a_val b_val tol =
    (Ok (Success_box root history), st) ->
  exists fn dfn,
    let solver := {| self_valid := true; self_error_msg := "";
                     self_f := fn; self_df := dfn |} in
    sympify_diff func_input = inr (fn, dfn) /\
    bracket_accepted solver a_val b_val /\
    solve solver a_val b_val tol 100 {| self_history := []; evals := [] |} =
      (Ok (Some root, DataFrame history), st).
Proof.
  unfold find_root_clicked, init.
  destruct (sympify_diff func_input) as [[c e]|[fn dfn]]; [discriminate|].
  cbn [self_valid negb].
  destruct (solve _ a_val b_val tol 100 _) as [[[[x|] [rows|s]]|e] st1] eqn:Hs;
    try discriminate.
  intros [= <- <- <-]. exists fn, dfn. split; [reflexivity|]. split; [|exact Hs].
  eapply solve_table_accepted; [reflexivity|exact Hs].
Qed.

(** X15.  When the click ends in the success box, the table under it has
    between 1 and 100 rows and the root shown is the estimate of its last
    row: the guard [if not history.empty] of the plot always holds. *)
Theorem success_box_shows_the_last_estimate func_input a_val b_val tol root history st :
  find_root_clicked sympify_diff func_input a_val b_val tol =
    (Ok (Success_box root history), st) ->
  exists front last,
    history = front ++ [last] /\
    root = Current_Root_Estimate last /\
    (List.length history <= 100)%nat.
Proof.
  intros Hclick.
  destruct (success_box_inv _ _ _ _ _ _ _ Hclick) as (fn & dfn & _ & Hacc & Hs).
  destruct (solve_last_pass _ _ _ _ _ _ _ _ _ Hacc Hs)
    as [(Hle & _)|(front & last & E & Hroot & _ & Hlen & _)]; [lia|].
  injection E as ->. injection Hroot as ->.
  exists front, last. split; [reflexivity|]. split; [reflexivity|]. lia.
Qed.

(** X16.  The click shows an error box in two cases only: the text did not
    parse, the message is "Invalid Function Syntax: " followed by the
    parser's message and nothing was evaluated; or [f(a) * f(b) >= 0], the
    message is the bracket error and only [f(a)] and [f(b)] were
    evaluated. *)
Theorem error_box_cases func_input a_val b_val tol msg st :
  find_root_clicked sympify_diff func_input a_val b_val tol = (Ok (Error_box msg), st) ->
  (exists c e,
      sympify_diff func_input = inl (Exn c e) /\
      msg = ("Invalid Function Syntax: " ++ e)%string /\
      st = {| self_history := []; evals := [] |}) \/
  (exists fn dfn fa fb,
      sympify_diff func_input = inr (fn, dfn) /\
      fn a_val = Ok fa /\ fn b_val = Ok fb /\
      geb (mul fa fb) zero = true /\
      msg = bracket_error /\
      st = {| self_history := []; evals := [Eval_f a_val; Eval_f b_val] |}).
Proof.
  unfold find_root_clicked, init.
  destruct (sympify_diff func_input) as [[c e]|[fn dfn]].
  - cbn [self_valid negb self_error_msg]. intros [= <- <-].
    left. exists c, e. auto.
  - cbn [self_valid negb].
    destruct (solve _ a_val b_val tol 100 _) as [[[[x|] [rows|s]]|e] st1] eqn:Hs;
      try discriminate.
    + intros [= <- <-].
      apply solve_message in Hs as (-> & -> & fa & fb & Ha & Hb & Hg); [|reflexivity].
      right. exists fn, dfn, fa, fb. repeat split; assumption.
    + intros [= <- <-].
      apply solve_message in Hs as (-> & -> & fa & fb & Ha & Hb & Hg); [|reflexivity].
      right. exists fn, dfn, fa, fb. repeat split; assumption.
Qed.

(** X17.  Lines 32-44: whatever exception the click raises before it
    reaches the tabs of line 46, that is while it builds the solver, solves
    and formats the success message, was raised by the parsed [f] at some
    point.  A text that does not parse raises nothing there, and the success
    message is never asked to format a missing root. *)
Theorem click_to_result_raises_only_what_f_raises func_input a_val b_val tol e st :
  find_root_clicked sympify_diff func_input a_val b_val tol = (Raise e, st) ->
  exists fn dfn x,
    sympify_diff func_input = inr (fn, dfn) /\ fn x = Raise e.
Proof.
  unfold find_root_clicked, init.
  destruct (sympify_diff func_input) as [[c e0]|[fn dfn]]; [discriminate|].
  cbn [self_valid negb].
  destruct (solve _ a_val b_val tol 100 _) as [[[[x|] [rows|s]]|e1] st1] eqn:Hs;
    try discriminate.
  - intros _. exfalso.
    assert (Hacc : bracket_accepted
              {| self_valid := true; self_error_msg := ""; self_f := fn; self_df := dfn |}
              a_val b_val)
      by (eapply solve_table_accepted; [|exact Hs]; reflexivity).
    destruct (solve_accepted_ok _ _ _ _ _ _ _ _ _ Hacc Hs) as (l & _ & Hroot & _).
    discriminate Hroot.
  - intros [= <- _]. apply solve_raise in Hs as [x Hx].
    exists fn, dfn, x. split; [reflexivity|exact Hx].
Qed.

Lemma success_rows_consistent func_input a_val b_val tol root history st :
  find_root_clicked sympify_diff func_input a_val b_val tol =
    (Ok (Success_box root history), st) ->
  Forall row_consistent history.
Proof.
  intros Hclick.
  destruct (success_box_inv _ _ _ _ _ _ _ Hclick) as (fn & dfn & _ & Hacc & Hs).
  destruct (solve_accepted_ok _ _ _ _ _ _ _ _ _ Hacc Hs) as (l & Hloop & _ & E).
  injection E as ->.
  eapply loop_rows_consistent; [|exact Hloop]. simpl. constructor.
Qed.

(** X18.  Under the success box the two filters of the plot split the table:
    every row is a green Newton dot or a red bisection cross, never both,
    so the two selections together have as many rows as the table. *)
Theorem plot_marks_every_row_once func_input a_val b_val tol root history st :
  find_root_clicked sympify_diff func_input a_val b_val tol =
    (Ok (Success_box root history), st) ->
  (List.length (newton_steps history) + List.length (bisection_steps history))%nat
    = List.length history /\
  Forall (fun r => In r (newton_steps history) <-> ~ In r (bisection_steps history))
         history.
Proof.
  intros Hclick. apply success_rows_consistent in Hclick.
  assert (Hx : Forall (fun r : row num =>
                 String.eqb (Method r) "Newton-Raphson"
                 = negb (String.eqb (Method r) "Bisection")) history).
  { eapply Forall_impl; [|exact Hclick].
    intros r [[-> _]|[-> _]]; reflexivity. }
  split; [now apply red_filter_split|].
  apply Forall_forall. intros r Hr.
  pose proof (proj1 (Forall_forall _ _) Hx r Hr) as Hrx. simpl in Hrx.
  unfold newton_steps, bisection_steps. rewrite !filter_In, Hrx.
  destruct (String.eqb (Method r) "Bisection"); simpl; split.
  - intros [_ F]. discriminate F.
  - intros F. exfalso. apply F. auto.
  - intros _ [_ F]. discriminate F.
  - intros _. auto.
Qed.

(** X19.  In the table under the success box the "Decision Logic" cell of a
    row is printed in red exactly when the row is a bisection step. *)
Theorem red_cells_are_the_bisection_rows func_input a_val b_val tol root history st :
  find_root_clicked sympify_diff func_input a_val b_val tol =
    (Ok (Success_box root history), st) ->
  Forall (fun r => printed_red (Decision_Logic r) = String.eqb (Method r) "Bisection")
         history.
Proof.
  intros Hclick. apply success_rows_consistent in Hclick.
  eapply Forall_impl; [|exact Hclick].
  intros r [[-> ->]|[-> [-> | ->]]]; reflexivity.
Qed.

End MoreApp.

(* ------------------------------------------------------------------ *)
(** ** The further properties at work on sample runs *)

Section MoreWitnesses.

Import Samples.

Lemma cubic_run_accepted : bracket_accepted cubic (-2)%float 1%float.
Proof. split; [reflexivity|]. exists (-2)%float, 1%float. repeat split. Qed.

Lemma cubic_run_returns :
  solve cubic (-2)%float 1%float tol6 100 fresh =
    (Ok (returned_root (fst cubic_run), DataFrame (returned_rows (fst cubic_run))),
     snd cubic_run).
Proof. vm_compute. reflexivity. Qed.

Lemma cubic_click_succeeds :
  find_root_clicked three_texts "x**3 - 2*x + 2" (-2)%float 1%float tol6 =
    (Ok (Success_box (shown_root (fst cubic_click)) (shown_rows (fst cubic_click))),
     snd cubic_click).
Proof. vm_compute. reflexivity. Qed.

Lemma rows_are_consistent_witness :
  Forall row_consistent (returned_rows (fst cubic_run)).
Proof.
  exact (rows_are_consistent cubic (-2)%float 1%float tol6 100 fresh
           (returned_root (fst cubic_run)) (returned_rows (fst cubic_run)) (snd cubic_run) cubic_run_accepted cubic_run_returns).
Defined.

Lemma rows_record_the_residual_witness :
  Forall (fun r => self_f cubic (Current_Root_Estimate r) = Ok (Function_Value r))
         (returned_rows (fst cubic_run)).
Proof.
  exact (rows_record_the_residual cubic (-2)%float 1%float tol6 100 fresh
           (returned_root (fst cubic_run)) (returned_rows (fst cubic_run)) (snd cubic_run)
           cubic_run_accepted cubic_run_returns).
Defined.

(** [x**2 - 2] on [[0, 2]]: from 1 Newton aims at 1.5. *)
Lemma candidate_inside_is_accepted_witness :
  exists r,
    self_history (snd (iteration sqrt2 tol6 1 (entry 0%float 2%float) fresh)) =
      self_history fresh ++ [r] /\
    Method r = "Newton-Raphson" /\
    Decision_Logic r = "Accepted (Step is Safe)" /\
    Current_Root_Estimate r = 1.5%float.
Proof.
  destruct (candidate_inside_is_accepted sqrt2 tol6 1
              (entry 0%float 2%float) fresh (-1)%float 2%float)
    with (l' := {| loc_a := 0%float; loc_b := 1.5%float;
                   current_x := 1.5%float; loc_i := 1 |})
         (stop := false)
         (st' := snd (iteration sqrt2 tol6 1 (entry 0%float 2%float) fresh))
    as (_ & _ & r & Hh & Hm & Hd & Hx);
    try (vm_compute; reflexivity).
  exists r. split; [exact Hh|]. split; [exact Hm|]. split; [exact Hd|].
  rewrite Hx. vm_compute. reflexivity.
Defined.

Lemma root_is_the_last_estimate_witness :
  exists front last,
    returned_rows (fst cubic_run) = front ++ [last] /\
    returned_root (fst cubic_run) = Some (Current_Root_Estimate last).
Proof.
  apply (root_is_the_last_estimate cubic (-2)%float 1%float tol6 100 fresh
           (returned_root (fst cubic_run)) (returned_rows (fst cubic_run)) (snd cubic_run)
           cubic_run_accepted).
  - lia.
  - exact cubic_run_returns.
Defined.

Lemma loop_stops_at_first_converged_row_witness :
  Forall (fun r => row_converged tol6 r = false)
         (removelast (returned_rows (fst cubic_run))) /\
  row_converged tol6 (List.last (returned_rows (fst cubic_run)) no_row) = true.
Proof.
  destruct (loop_stops_at_first_converged_row cubic (-2)%float 1%float tol6 100 fresh
              (returned_root (fst cubic_run))
              (removelast (returned_rows (fst cubic_run)))
              (List.last (returned_rows (fst cubic_run)) no_row)
              (snd cubic_run) cubic_run_accepted) as [Hfront Hlast].
  - vm_compute. reflexivity.
  - split; [exact Hfront|]. apply Hlast. vm_compute. reflexivity.
Defined.

Lemma early_return_has_converged_witness :
  exists front last,
    returned_rows (fst cubic_run) = front ++ [last] /\
    self_f cubic (shown_root (fst cubic_click)) = Ok (Function_Value last) /\
    (ltb (Error_Estimate last) tol6 = true \/
     ltb (nabs (Function_Value last)) eps12 = true).
Proof.
  apply (early_return_has_converged cubic (-2)%float 1%float tol6 100 fresh
           (shown_root (fst cubic_click)) (returned_rows (fst cubic_run)) (snd cubic_run)
           cubic_run_accepted).
  - vm_compute. reflexivity.
  - vm_compute. reflexivity.
Defined.

Lemma no_pass_returns_the_midpoint_witness :
  solve cubic (-2)%float 1%float tol6 0 fresh =
    (Ok (Some (midpoint (-2)%float 1%float), DataFrame []),
     with_history [] (logged fresh [Eval_f (-2)%float; Eval_f 1%float])).
Proof.
  apply (no_pass_returns_the_midpoint cubic _ _ tol6 0 fresh cubic_run_accepted). lia.
Defined.

(** [1/x] on [[0, 1]]: the first evaluation of validation raises. *)
Lemma endpoint_exception_propagates_witness :
  exists ev,
    solve reciprocal 0%float 1%float tol6 100 fresh =
      (Raise (Exn "ZeroDivisionError" "float division by zero"), logged fresh ev) /\
    (ev = [Eval_f 0%float] \/ ev = [Eval_f 0%float; Eval_f 1%float]).
Proof.
  apply (endpoint_exception_propagates reciprocal 0%float 1%float tol6 100 fresh).
  - reflexivity.
  - left. reflexivity.
Defined.

Lemma solve_raises_only_what_f_raises_witness :
  exists x,
    self_f reciprocal x = Raise (Exn "ZeroDivisionError" "float division by zero").
Proof.
  apply (solve_raises_only_what_f_raises reciprocal (-1)%float 1%float tol6 100 fresh _
           (snd (solve reciprocal (-1)%float 1%float tol6 100 fresh))).
  vm_compute. reflexivity.
Defined.

Lemma evaluations_per_row_witness :
  (List.length (evals fresh) + 2 + 3 * List.length (returned_rows (fst cubic_run))
     <= List.length (evals (snd cubic_run)) /\
   List.length (evals (snd cubic_run))
     <= List.length (evals fresh) + 2 + 4 * List.length (returned_rows (fst cubic_run)))%nat.
Proof.
  exact (evaluations_per_row cubic (-2)%float 1%float tol6 100 fresh
           (returned_root (fst cubic_run)) (returned_rows (fst cubic_run)) (snd cubic_run) cubic_run_accepted cubic_run_returns).
Defined.

Lemma success_box_shows_the_last_estimate_witness :
  exists front last,
    shown_rows (fst cubic_click) = front ++ [last] /\
    shown_root (fst cubic_click) = Current_Root_Estimate last /\
    (List.length (shown_rows (fst cubic_click)) <= 100)%nat.
Proof.
  exact (success_box_shows_the_last_estimate three_texts "x**3 - 2*x + 2" (-2)%float 1%float tol6
           (shown_root (fst cubic_click)) (shown_rows (fst cubic_click)) (snd cubic_click)
           cubic_click_succeeds).
Defined.

(** [x**2 + 1] on [[-1, 1]] and a text that does not parse. *)
Lemma error_box_cases_witness :
  (exists fn dfn fa fb,
      three_texts "x**2 + 1" = inr (fn, dfn) /\
      fn (-1)%float = Ok fa /\ fn 1%float = Ok fb /\
      geb (mul fa fb) zero = true) /\
  (exists c e, three_texts "x +* 2" = inl (Exn c e)).
Proof.
  split.
  - destruct (error_box_cases three_texts "x**2 + 1" (-1)%float 1%float tol6
                bracket_error
                {| self_history := []; evals := [Eval_f (-1)%float; Eval_f 1%float] |})
      as [(c & e & Hp & _)|(fn & dfn & fa & fb & Hp & Ha & Hb & Hg & _)].
    + vm_compute. reflexivity.
    + discriminate Hp.
    + exists fn, dfn, fa, fb. auto.
  - destruct (error_box_cases three_texts "x +* 2" (-1)%float 1%float tol6
                "Invalid Function Syntax: could not parse the expression"
                {| self_history := []; evals := [] |})
      as [(c & e & Hp & _)|(fn & dfn & fa & fb & Hp & _)].
    + vm_compute. reflexivity.
    + exists c, e. exact Hp.
    + discriminate Hp.
Defined.

Lemma click_to_result_raises_only_what_f_raises_witness :
  exists fn dfn x,
    three_texts "1/x" = inr (fn, dfn) /\
    fn x = Raise (Exn "ZeroDivisionError" "float division by zero").
Proof.
  apply (click_to_result_raises_only_what_f_raises three_texts "1/x" (-1)%float 1%float tol6 _
           (snd (find_root_clicked three_texts "1/x" (-1)%float 1%float tol6))).
  vm_compute. reflexivity.
Defined.

Lemma plot_marks_every_row_once_witness :
  (List.length (newton_steps (shown_rows (fst cubic_click)))
   + List.length (bisection_steps (shown_rows (fst cubic_click))))%nat
  = List.length (shown_rows (fst cubic_click)).
Proof.
  exact (proj1 (plot_marks_every_row_once three_texts "x**3 - 2*x + 2" (-2)%float 1%float tol6
           (shown_root (fst cubic_click)) (shown_rows (fst cubic_click)) (snd cubic_click)
                  cubic_click_succeeds)).
Defined.

Lemma red_cells_are_the_bisection_rows_witness :
  Forall (fun r => printed_red (Decision_Logic r) = String.eqb (Method r) "Bisection")
         (shown_rows (fst cubic_click)).
Proof.
  exact (red_cells_are_the_bisection_rows three_texts "x**3 - 2*x + 2" (-2)%float 1%float tol6
           (shown_root (fst cubic_click)) (shown_rows (fst cubic_click)) (snd cubic_click)
           cubic_click_succeeds).
Defined.

End MoreWitnesses.
